(** * The debug-redirect trace synthesizer (DebugRedirect component)

    A shallow embedding of [processDebugInfo], the effect of the
    component that turns the page's query parameters into a [DebugInfo]
    value, and the properties of it that the design document states.

    Browser facilities are kept apart from the component's code:
    - [Browser]: the deterministic part (the URL class, [navigator],
      the build-time server address);
    - [Oracle]: what the outside world answers at each call (the key
      validation service, [crypto.randomUUID], the clock).

    The component itself is a computation in a state-and-exception monad
    over the React state cells it writes and a log of its effects. What
    the validation service sends is not checked by the component, so the
    body of its answer is any JSON value. *)

From Stdlib Require Import Ascii String.
From stdpp Require Import base option list strings pretty gmap fin_maps.

Open Scope string_scope.

(** ** JavaScript values *)

(** A property destructured from a [Record<string, string>] is a
    [string | undefined]; [None] is [undefined]. [truthy x] is the test
    [if (x)] and [negb (truthy x)] is [!x]: the empty string is falsy. *)
Definition truthy (x : option string) : bool :=
  match x with
  | Some (String _ _) => true
  | _ => false
  end.

(** [x || d] on a possibly undefined string. *)
Definition or_default (x : option string) (d : string) : string :=
  match x with
  | Some (String a r) => String a r
  | _ => d
  end.

(** A value at run time. The type annotations of the source are erased
    when it runs: what [response.json()] hands over is whatever JSON value
    the service sent, and a property read from it is any value or
    [undefined]. An object is the list of its members in the order of the
    text; when a name is repeated, the last member counts, as [JSON.parse]
    builds it. Numbers are kept as integers: the component only tests a
    number for zero and has the browser print it. *)
#[warnings="-register-all"]
Inductive JsValue : Type :=
  | JUndefined
  | JNull
  | JBool (b : bool)
  | JNum (n : Z)
  | JStr (s : string)
  | JArr (items : list JsValue)
  | JObj (props : list (string * JsValue)).

Definition is_string (v : JsValue) : Prop := ∃ s, v = JStr s.

(** The value type of the index signature of [TracePayload]:
    [string | number | boolean | null]. *)
Definition is_primitive (v : JsValue) : Prop :=
  match v with
  | JNull | JBool _ | JNum _ | JStr _ => True
  | JUndefined | JArr _ | JObj _ => False
  end.

(** [if (v)]: [undefined], [null], [false], zero and the empty string are
    falsy, every other value is truthy. *)
Definition ToBoolean (v : JsValue) : bool :=
  match v with
  | JUndefined | JNull => false
  | JBool b => b
  | JNum n => negb (n =? 0)%Z
  | JStr s => negb (String.eqb s "")
  | JArr _ | JObj _ => true
  end.

(** [a || b] *)
Definition or_else (a b : JsValue) : JsValue := if ToBoolean a then a else b.

Definition nullish (v : JsValue) : bool :=
  match v with
  | JUndefined | JNull => true
  | _ => false
  end.

(** What a read of the property [name] finds in a value, for a name that
    no prototype defines (as is the case of [id], [isActive] and
    [token]): the member of an object, and [undefined] for an object
    without it and for any other value. Of [null] and [undefined] no
    property can be read at all: [get] and [get_optional] test for them
    first. *)
Definition member (v : JsValue) (name : string) : JsValue :=
  match v with
  | JObj props => default JUndefined (snd <$> last (filter (λ kv, kv.1 = name) props))
  | _ => JUndefined
  end.

(** [v.name], which throws a [TypeError] ([None]) when [v] is [null] or
    [undefined]. *)
Definition get (v : JsValue) (name : string) : option JsValue :=
  if nullish v then None else Some (member v name).

(** [v?.name] *)
Definition get_optional (v : JsValue) (name : string) : JsValue :=
  if nullish v then JUndefined else member v name.

(** An optional property of a record of the component, when it is read:
    [None] is a property that the object does not have. *)
Definition read (x : option JsValue) : JsValue := default JUndefined x.

(** An object literal is evaluated property by property, left to right;
    a later definition of a key replaces the earlier one. *)
Definition assign {V} (o : gmap string V) (props : list (string * V)) : gmap string V :=
  foldl (λ acc kv, <[kv.1 := kv.2]> acc) o props.

(** [{ ...o, ...src }]: the spread properties win over those already
    defined. *)
Definition spread {V} (o src : gmap string V) : gmap string V := src ∪ o.

(** ** The records of the component *)

(** The shape that lines 19-23 declare for the body of a 2xx response,
    and the value that a body of that shape is. Nothing checks the shape
    at run time. *)
Module ApiKeyInfo.
Record t : Type := mk { id : string; isActive : bool; token : string }.

Definition to_js (data : t) : JsValue :=
  JObj [ ("id", JStr (id data)); ("isActive", JBool (isActive data));
         ("token", JStr (token data)) ].
End ApiKeyInfo.

Definition TracePayload : Type := gmap string JsValue.

(** [api_key_valid] and [api_key_info] hold what lines 117-118 store,
    whatever it is; the record of lines 135-147 does not have them. *)
Module DebugInfo.
Record t : Type := mk {
  trace_payload : TracePayload;
  final_url : string;
  timestamp : string;
  error : option string;
  api_key_valid : option JsValue;
  api_key_info : option JsValue
}.

Definition with_error (e : string) (info : t) : t :=
  mk (trace_payload info) (final_url info) (timestamp info) (Some e)
     (api_key_valid info) (api_key_info info).
End DebugInfo.

(** ** The URL class *)

Module URL.
(** A parsed URL: everything up to the path, the list of query pairs
    that [url.searchParams] exposes, and the fragment. *)
Record t : Type := mk {
  origin_path : string;
  searchParams : list (string * string);
  hash : string
}.

Definition named (name : string) (l : list (string * string)) : list (string * string) :=
  filter (λ kv, kv.1 = name) l.

Definition not_named (name : string) (l : list (string * string)) : list (string * string) :=
  filter (λ kv, kv.1 ≠ name) l.

(** [URLSearchParams.prototype.set]: the first pair called [name] takes
    the value and the other pairs of that name are dropped; if there is
    none, the pair is appended. *)
Fixpoint set_pairs (name val : string) (l : list (string * string)) : list (string * string) :=
  match l with
  | [] => [(name, val)]
  | kv :: l' =>
      if decide (kv.1 = name) then (name, val) :: not_named name l'
      else kv :: set_pairs name val l'
  end.

Definition set (name val : string) (u : t) : t :=
  mk (origin_path u) (set_pairs name val (searchParams u)) (hash u).
End URL.

(** A thrown value: an [Error] object with its message, or anything else. *)
Inductive Exn : Type :=
  | ErrorObj (message : string)
  | NotAnError.

Record Browser : Type := {
  (** [new URL(s)], which throws a [TypeError] with some message on a
      string that is not an absolute URL *)
  URL_new : string → string + URL.t;
  (** [url.toString()] *)
  URL_toString : URL.t → string;
  (** [navigator.userAgent], [navigator.language] *)
  userAgent : string;
  language : string;
  (** [import.meta.env.PUBLIC_SERVER_URL] *)
  PUBLIC_SERVER_URL : option string;
  (** [JSON.stringify(v)] for an array or an object *)
  JSON_stringify : JsValue → string;
  (** [String(n)], the text of a number *)
  Number_toString : Z → string
}.

(** What a [fetch] of the validation endpoint comes to: the promise
    rejects, or a response arrives, of which the code reads [ok] and,
    when it is set, the body through [response.json()], which may reject
    as well and otherwise gives some JSON value. *)
Inductive FetchResult : Type :=
  | Rejects (e : Exn)
  | Responds (ok : bool) (json : Exn + JsValue).

(** The answers of the outside world, by the number of effects the
    component has performed so far. *)
Record Oracle : Type := {
  fetch_at : nat → string → string → FetchResult;
  randomUUID_at : nat → string;
  now_at : nat → string
}.

(** ** Component state and effects *)

Inductive Event : Type :=
  | EFetch (url x_api_key : string) (r : FetchResult)
  | ERandomUUID (r : string)
  | ENow (r : string)
  | ESetIsLoading (b : bool)
  | ESetDebugInfo (info : DebugInfo.t).

Record State : Type := mkState {
  debugInfo : option DebugInfo.t;
  isLoading : bool;
  log : list Event
}.

Definition M (A : Type) : Type := State → (Exn + A) * State.

Definition ret {A} (a : A) : M A := λ s, (inr a, s).

Definition bind {A B} (m : M A) (k : A → M B) : M B :=
  λ s, match m s with
       | (inr a, s') => k a s'
       | (inl e, s') => (inl e, s')
       end.

Definition throw {A} (e : Exn) : M A := λ s, (inl e, s).

(** [try { m } catch (e) { h e }] *)
Definition try_catch {A} (m : M A) (h : Exn → M A) : M A :=
  λ s, match m s with
       | (inl e, s') => h e s'
       | r => r
       end.

(** [try { m } finally { f }] *)
Definition try_finally {A} (m : M A) (f : M unit) : M A :=
  λ s, match m s with
       | (r, s') =>
           match f s' with
           | (inr _, s'') => (r, s'')
           | (inl e, s'') => (inl e, s'')
           end
       end.

#[global] Instance M_ret : MRet M := @ret.
#[global] Instance M_bind : MBind M := λ A B k m, bind m k.

Definition emit (e : Event) (s : State) : State :=
  mkState (debugInfo s) (isLoading s) (log s ++ [e]).

Definition setIsLoading (b : bool) : M unit :=
  λ s, (inr tt, mkState (debugInfo s) b (log s ++ [ESetIsLoading b])).

Definition setDebugInfo (info : DebugInfo.t) : M unit :=
  λ s, (inr tt, mkState (Some info) (isLoading s) (log s ++ [ESetDebugInfo info])).

(** The rest pattern of line 45: the parameters other than the three
    reserved ones. *)
Definition extraParams (searchParams : gmap string string) : gmap string string :=
  delete "campaign_id" (delete "redirect_url" (delete "api_key" searchParams)).

Section Component.
Context (B : Browser) (O : Oracle).

(** [crypto.randomUUID()] *)
Definition randomUUID : M string :=
  λ s, let r := randomUUID_at O (length (log s)) in (inr r, emit (ERandomUUID r) s).

(** [new Date().toISOString()] *)
Definition now : M string :=
  λ s, let r := now_at O (length (log s)) in (inr r, emit (ENow r) s).

(** [await fetch(url, { headers: { "x-api-key": key } })] *)
Definition fetch (url key : string) : M (bool * (Exn + JsValue)) :=
  λ s, let r := fetch_at O (length (log s)) url key in
       let s' := emit (EFetch url key r) s in
       match r with
       | Rejects e => (inl e, s')
       | Responds ok json => (inr (ok, json), s')
       end.

(** [await response.json()] *)
Definition json (body : Exn + JsValue) : M JsValue :=
  match body with
  | inl e => throw e
  | inr data => ret data
  end.

(** [new URL(s)] *)
Definition newURL (s : string) : M URL.t :=
  match URL_new B s with
  | inl message => throw (ErrorObj message)
  | inr u => ret u
  end.

Definition serverUrl : string :=
  or_default (PUBLIC_SERVER_URL B) "http://localhost:8787".

(** Lines 55-76: the two locals [apiKeyInfo] and [apiKeyValid] after the
    validation call. The inner [try] assigns to both and its handler to
    [apiKeyValid] only, so the locals are passed along explicitly: what
    was assigned to [apiKeyInfo] before something threw stays. The three
    places where the block can throw are the [fetch], [response.json()]
    and the read of [data.isActive]. *)
Definition validate (api_key : option string) : M (JsValue * JsValue) :=
  let apiKeyInfo := JNull in
  let apiKeyValid := JBool false in
  if truthy api_key then
    λ s,
      match fetch (serverUrl ++ "/v1/auth/api-key") (or_default api_key "") s with
      | (inl _error, s) => (inr (apiKeyInfo, JBool false), s)
      | (inr (ok, body), s) =>
          if ok : bool then
            match json body s with
            | (inl _error, s) => (inr (apiKeyInfo, JBool false), s)
            | (inr data, s) =>
                let apiKeyInfo := data in
                match get data "isActive" with
                | None => (inr (apiKeyInfo, JBool false), s)
                | Some isActive => (inr (apiKeyInfo, isActive), s)
                end
            end
          else (inr (apiKeyInfo, apiKeyValid), s)
      end
  else mret (apiKeyInfo, apiKeyValid).

(** Lines 84-92: the parameters set on the parsed [redirect_url].
    [Object.entries] lists the extra parameters in the order of
    [map_to_list]; that order only decides where pairs of new names are
    appended. *)
Definition add_params (extraParams : gmap string string) (trace_id : string)
    (api_key : option string) (url : URL.t) : URL.t :=
  let url :=
    foldl (λ url kv, if truthy (Some kv.2) then URL.set kv.1 kv.2 url else url)
          url (map_to_list extraParams) in
  let url := URL.set "trace_id" trace_id url in
  if truthy api_key then URL.set "api_key" (or_default api_key "") url else url.

(** Lines 81-94. *)
Definition compute_final_url (redirect_url api_key : option string)
    (extraParams : gmap string string) (trace_id : string) : M string :=
  let final_url := or_default redirect_url "" in
  if truthy (Some final_url) then
    url ← newURL final_url;
    mret (URL_toString B (add_params extraParams trace_id api_key url))
  else mret final_url.

(** Lines 104-110: the simulated network attributes. *)
Definition network_block : list (string * JsValue) :=
  [ ("country", JStr "BR");
    ("city", JStr "São Paulo");
    ("colo", JStr "GRU");
    ("timezone", JStr "America/Sao_Paulo");
    ("asn", JStr "1234");
    ("user-agent", JStr (userAgent B));
    ("accept-language", JStr (language B)) ].

(** Lines 96-111. *)
Definition make_trace_payload (trace_id created_at : string)
    (campaign_id redirect_url : option string) (apiKeyInfo : JsValue)
    (final_url : string) (extraParams : gmap string string) : TracePayload :=
  let o := assign ∅
    [ ("id", JStr trace_id);
      ("created_at", JStr created_at);
      ("campaign_id", JStr (or_default campaign_id "missing"));
      ("api_key_id", or_else (get_optional apiKeyInfo "id") (JStr "unknown"));
      ("redirect_url", JStr (or_default redirect_url "missing"));
      ("final_url", JStr final_url) ] in
  let o := spread o (JStr <$> extraParams) in
  assign o network_block.

(** Lines 121-129. *)
Definition set_error (redirect_url api_key campaign_id : option string)
    (apiKeyValid : JsValue) (info : DebugInfo.t) : DebugInfo.t :=
  if negb (truthy redirect_url) then
    DebugInfo.with_error "Missing required parameter: redirect_url" info
  else if negb (truthy api_key) then
    DebugInfo.with_error "Missing required parameter: api_key" info
  else if negb (truthy campaign_id) then
    DebugInfo.with_error "Missing required parameter: campaign_id" info
  else if negb (ToBoolean apiKeyValid) then
    DebugInfo.with_error "API key is invalid or inactive" info
  else info.

(** Lines 135-147: the state set by the outer [catch]. *)
Definition degraded (errorMessage timestamp : string) : DebugInfo.t :=
  DebugInfo.mk
    (assign ∅
       [ ("id", JStr ""); ("created_at", JStr ""); ("campaign_id", JStr "");
         ("api_key_id", JStr ""); ("redirect_url", JStr ""); ("final_url", JStr "") ])
    "" timestamp (Some errorMessage) None None.

(** Lines 54-131: the body of the outer [try]. *)
Definition synthesize (campaign_id redirect_url api_key : option string)
    (extraParams : gmap string string) : M unit :=
  '(apiKeyInfo, apiKeyValid) ← validate api_key;
  trace_id ← randomUUID;
  created_at ← now;
  final_url ← compute_final_url redirect_url api_key extraParams trace_id;
  let trace_payload :=
    make_trace_payload trace_id created_at campaign_id redirect_url
                       apiKeyInfo final_url extraParams in
  timestamp ← now;
  let info :=
    DebugInfo.mk trace_payload final_url timestamp None (Some apiKeyValid)
                 (Some apiKeyInfo) in
  setDebugInfo (set_error redirect_url api_key campaign_id apiKeyValid info).

(** Lines 132-147. *)
Definition on_error (error : Exn) : M unit :=
  let errorMessage :=
    match error with
    | ErrorObj message => message
    | NotAnError => "Unknown error"
    end in
  timestamp ← now;
  setDebugInfo (degraded errorMessage timestamp).

(** Lines 44-151. *)
Definition processDebugInfo (searchParams : gmap string string) : M unit :=
  let campaign_id := searchParams !! "campaign_id" in
  let redirect_url := searchParams !! "redirect_url" in
  let api_key := searchParams !! "api_key" in
  let extraParams := extraParams searchParams in
  if negb (truthy campaign_id) && negb (truthy redirect_url) && negb (truthy api_key)
  then mret tt
  else
    setIsLoading true;;
    try_finally
      (try_catch
         (synthesize campaign_id redirect_url api_key extraParams)
         on_error)
      (setIsLoading false).

(** What a pass does, read off the log: the events it appends, the
    [DebugInfo] it hands to [setDebugInfo] (if any), the answers it got
    from the validation service and the identifiers it drew. *)
Definition events (searchParams : gmap string string) (s : State) : list Event :=
  drop (length (log s)) (log (processDebugInfo searchParams s).2).

Definition produced (searchParams : gmap string string) (s : State) : option DebugInfo.t :=
  last (omap (λ e, match e with ESetDebugInfo info => Some info | _ => None end)
             (events searchParams s)).

Definition fetched (searchParams : gmap string string) (s : State) : list FetchResult :=
  omap (λ e, match e with EFetch _ _ r => Some r | _ => None end)
       (events searchParams s).

Definition generated (searchParams : gmap string string) (s : State) : list string :=
  omap (λ e, match e with ERandomUUID r => Some r | _ => None end)
       (events searchParams s).
End Component.

(** ** A reference browser

    An instance of [Browser] for the plain-ASCII fragment of the URL
    standard, used to run the component on concrete inputs: a string
    parses when it starts with a scheme ([alpha (alpha | digit | + | - |
    .)* :]), query pairs are split at [&] and [=], and strings are kept
    as written (no percent-coding, no host or path normalisation). The
    general theorems below hold for every [Browser]. *)

Module Reference.
Definition is_alpha (a : ascii) : bool :=
  let n := nat_of_ascii a in
  (Nat.leb 65 n && Nat.leb n 90) || (Nat.leb 97 n && Nat.leb n 122).

Definition is_scheme_char (a : ascii) : bool :=
  let n := nat_of_ascii a in
  is_alpha a || (Nat.leb 48 n && Nat.leb n 57)
  || Nat.eqb n 43 || Nat.eqb n 45 || Nat.eqb n 46.

Fixpoint all_chars (f : ascii → bool) (s : string) : bool :=
  match s with
  | EmptyString => true
  | String a r => f a && all_chars f r
  end.

Definition is_scheme (s : string) : bool :=
  match s with
  | EmptyString => false
  | String a r => is_alpha a && all_chars is_scheme_char r
  end.

(** The text before and after the first [c]. *)
Fixpoint split_first (c : ascii) (s : string) : option (string * string) :=
  match s with
  | EmptyString => None
  | String a r =>
      if Ascii.eqb a c then Some (EmptyString, r)
      else match split_first c r with
           | Some (x, y) => Some (String a x, y)
           | None => None
           end
  end.

Fixpoint split_all (c : ascii) (s : string) : list string :=
  match s with
  | EmptyString => [EmptyString]
  | String a r =>
      if Ascii.eqb a c then EmptyString :: split_all c r
      else match split_all c r with
           | x :: xs => String a x :: xs
           | [] => [String a EmptyString]
           end
  end.

Definition parse_pair (s : string) : string * string :=
  match split_first "=" s with
  | Some kv => kv
  | None => (s, "")
  end.

Definition parse_query (q : string) : list (string * string) :=
  parse_pair <$> filter (λ s, s ≠ "") (split_all "&" q).

Definition parse_url (s : string) : string + URL.t :=
  match split_first ":" s with
  | Some (scheme, _) =>
      if is_scheme scheme then
        let '(front, hash) :=
          match split_first "#" s with
          | Some (x, y) => (x, "#" ++ y)
          | None => (s, "")
          end in
        let '(origin_path, query) :=
          match split_first "?" front with
          | Some xy => xy
          | None => (front, "")
          end in
        inr (URL.mk origin_path (parse_query query) hash)
      else inl "Invalid URL"
  | None => inl "Invalid URL"
  end.

Fixpoint join (sep : string) (l : list string) : string :=
  match l with
  | [] => ""
  | [x] => x
  | x :: l' => x ++ sep ++ join sep l'
  end.

Definition serialize_url (u : URL.t) : string :=
  URL.origin_path u
  ++ match URL.searchParams u with
     | [] => ""
     | l => "?" ++ join "&" ((λ kv, kv.1 ++ "=" ++ kv.2) <$> l)
     end
  ++ URL.hash u.

(** The text of a string between quotes, with the quote and the
    backslash escaped. *)
Fixpoint escape (s : string) : string :=
  match s with
  | EmptyString => EmptyString
  | String a r =>
      if Ascii.eqb a "034" || Ascii.eqb a "092" then String "092" (String a (escape r))
      else String a (escape r)
  end.

Definition quote (s : string) : string :=
  String "034" (escape s ++ String "034" EmptyString).

Fixpoint stringify (v : JsValue) : string :=
  match v with
  | JUndefined | JNull => "null"
  | JBool b => if b then "true" else "false"
  | JNum n => pretty n
  | JStr s => quote s
  | JArr items => "[" ++ join "," (stringify <$> items) ++ "]"
  | JObj props =>
      "{" ++ join "," ((λ kv, quote kv.1 ++ ":" ++ stringify kv.2) <$> props) ++ "}"
  end.

Definition browser : Browser :=
  {| URL_new := parse_url;
     URL_toString := serialize_url;
     userAgent := "Mozilla/5.0";
     language := "pt-BR";
     PUBLIC_SERVER_URL := None;
     JSON_stringify := stringify;
     Number_toString := pretty |}.

(** An outside world in which the validation service always answers
    [r], the generator returns [uuid] and the clock reads [time]. *)
Definition oracle (r : FetchResult) (uuid time : string) : Oracle :=
  {| fetch_at := λ _ _ _, r;
     randomUUID_at := λ _, uuid;
     now_at := λ _, time |}.

(** An outside world in which the generator counts the calls. *)
Definition counting (r : FetchResult) : Oracle :=
  {| fetch_at := λ _ _ _, r;
     randomUUID_at := λ n, pretty n;
     now_at := λ _, "2025-01-24T18:30:00.000Z" |}.

(** The body of the scenario of the design document. *)
Definition active_key : FetchResult :=
  Responds true
    (inr (ApiKeyInfo.to_js (ApiKeyInfo.mk "k1" true "abcdefghijklmnopqrstuvwxyz"))).

(** HTTP 401 *)
Definition unauthorized : FetchResult := Responds false (inl NotAnError).

(** The network fails. *)
Definition unreachable : FetchResult := Rejects (ErrorObj "Failed to fetch").

(** 2xx answers that do not have the declared shape: an id that is an
    object, an empty object, a number as the whole body. *)
Definition nested_id : FetchResult :=
  Responds true
    (inr (JObj [ ("id", JObj [("n", JNum 7)]); ("isActive", JBool true);
                 ("token", JStr "abc") ])).

Definition empty_object : FetchResult := Responds true (inr (JObj [])).

Definition zero : FetchResult := Responds true (inr (JNum 0)).

Definition uuid1 : string := "3b241101-e2bb-4255-8caf-4136c566a962".
Definition uuid2 : string := "9f1c2d3e-4a5b-4c6d-8e7f-0a1b2c3d4e5f".
Definition time1 : string := "2025-01-24T18:30:00.000Z".
Definition time2 : string := "2025-01-24T18:31:07.250Z".

(** The initial state of the component. *)
Definition idle : State := mkState None false [].

Definition world (r : FetchResult) : Oracle := oracle r uuid1 time1.

(** The query strings used as examples. *)
Definition scenario : gmap string string :=
  list_to_map
    [ ("campaign_id", "c1"); ("redirect_url", "https://example.com/x");
      ("api_key", "k1"); ("utm_source", "newsletter") ].

Definition unparseable : gmap string string :=
  list_to_map
    [ ("campaign_id", "c1"); ("redirect_url", "not a url"); ("api_key", "k1") ].

Definition extra_trace_id : gmap string string :=
  list_to_map [ ("redirect_url", "https://example.com/x"); ("trace_id", "foo") ].

Definition extra_id : gmap string string :=
  list_to_map [ ("campaign_id", "c1"); ("id", "mine") ].

Definition extra_country : gmap string string :=
  list_to_map [ ("campaign_id", "c1"); ("country", "XX") ].

Definition only_redirect_url : gmap string string :=
  {[ "redirect_url" := "https://example.com/x" ]}.

Definition empty_campaign_id : gmap string string :=
  list_to_map
    [ ("campaign_id", ""); ("redirect_url", "https://example.com/x");
      ("api_key", "k1") ].

Definition empty_api_key : gmap string string :=
  list_to_map [ ("campaign_id", "c1"); ("api_key", "") ].

Definition empty_campaign_id_unparseable : gmap string string :=
  list_to_map [ ("campaign_id", ""); ("redirect_url", "not a url") ].

Definition example_url : URL.t := URL.mk "https://example.com/x" [] "".
End Reference.

(** ** A pass, in closed form

    The result of running [processDebugInfo] from a state [s], written
    as functions of the parameters and of the oracle; [processDebugInfo_run]
    below proves that this is what the code computes. *)

Section Pass.
Context (B : Browser) (O : Oracle).
Implicit Types (p : gmap string string) (s : State).

(** The two locals after a validation call that was answered by [r]. *)
Definition checked (r : FetchResult) : JsValue * JsValue :=
  match r with
  | Responds true (inr data) => (data, default (JBool false) (get data "isActive"))
  | _ => (JNull, JBool false)
  end.

Definition endpoint : string := serverUrl B ++ "/v1/auth/api-key".

(** A pass is idle when the guard of line 48 returns at once. *)
Definition is_idle p : bool :=
  negb (truthy (p !! "campaign_id")) && negb (truthy (p !! "redirect_url"))
  && negb (truthy (p !! "api_key")).

(** The answer to the validation call of the pass started in [s], when
    the pass makes one: the call is its second effect. *)
Definition pass_fetch p s : option FetchResult :=
  if truthy (p !! "api_key") then
    Some (fetch_at O (S (length (log s))) endpoint (or_default (p !! "api_key") ""))
  else None.

(** The length of the log when the pass draws its identifier. *)
Definition pass_tick p s : nat :=
  if truthy (p !! "api_key") then S (S (length (log s))) else S (length (log s)).

Definition pass_trace_id p s : string := randomUUID_at O (pass_tick p s).

(** What [new URL] and the lines after it come to. *)
Definition pass_url p s : string + string :=
  if truthy (p !! "redirect_url") then
    match URL_new B (or_default (p !! "redirect_url") "") with
    | inl message => inl message
    | inr url =>
        inr (URL_toString B
               (add_params (extraParams p) (pass_trace_id p s) (p !! "api_key") url))
    end
  else inr "".

(** The locals [apiKeyInfo] and [apiKeyValid] of the pass. *)
Definition pass_key p s : JsValue * JsValue :=
  from_option checked (JNull, JBool false) (pass_fetch p s).

Definition pass_info p s : DebugInfo.t :=
  let key := pass_key p s in
  let timestamp := now_at O (S (S (pass_tick p s))) in
  match pass_url p s with
  | inl message => degraded message timestamp
  | inr final_url =>
      set_error (p !! "redirect_url") (p !! "api_key") (p !! "campaign_id") key.2
        (DebugInfo.mk
           (make_trace_payload B (pass_trace_id p s) (now_at O (S (pass_tick p s)))
              (p !! "campaign_id") (p !! "redirect_url") key.1 final_url (extraParams p))
           final_url timestamp None (Some key.2) (Some key.1))
  end.

Definition pass_events p s : list Event :=
  ESetIsLoading true
  :: from_option
       (λ r, [EFetch endpoint (or_default (p !! "api_key") "") r]) [] (pass_fetch p s)
  ++ [ ERandomUUID (pass_trace_id p s);
       ENow (now_at O (S (pass_tick p s)));
       ENow (now_at O (S (S (pass_tick p s))));
       ESetDebugInfo (pass_info p s);
       ESetIsLoading false ].
End Pass.

(** ** The vocabulary of the design document *)

(** A parameter is missing when the map has no such key or maps it to the
    empty string, and supplied otherwise. *)
Definition Missing (p : gmap string string) (k : string) : Prop :=
  p !! k = None ∨ p !! k = Some "".

Definition Supplied (p : gmap string string) (k : string) : Prop :=
  ∃ v, p !! k = Some v ∧ v ≠ "".

(** The pass is not a degraded one: the [redirect_url], if one is
    supplied, is accepted by [new URL]. *)
Definition parses (B : Browser) (p : gmap string string) : Prop :=
  ∀ r, p !! "redirect_url" = Some r → r ≠ "" → ∃ url, URL_new B r = inr url.

(** The three reserved parameters; an extra parameter is a key of the map
    other than these, with its value. *)
Definition reserved : list string := ["campaign_id"; "redirect_url"; "api_key"].

Definition Extra (p : gmap string string) (k x : string) : Prop :=
  (k ∉ reserved) ∧ p !! k = Some x.

(** The seven simulated network attributes. *)
Definition network_names : list string :=
  ["country"; "city"; "colo"; "timezone"; "asn"; "user-agent"; "accept-language"].

(** A network failure, or a response that is not 2xx. *)
Definition fetch_failed (r : FetchResult) : Prop :=
  match r with
  | Rejects _ => True
  | Responds ok _ => ok = false
  end.

(** Something is thrown while the validation call is made and its answer
    is read: the [fetch] rejects, [response.json()] rejects, or the body
    is [null], of which no property can be read. *)
Definition validation_throws (r : FetchResult) : Prop :=
  match r with
  | Rejects _ => True
  | Responds true (inl _) => True
  | Responds true (inr data) => nullish data = true
  | Responds false _ => False
  end.

(** The query [q] has the pair [(k, v)] and no other pair named [k]. *)
Definition has_only (q : list (string * string)) (k v : string) : Prop :=
  (k, v) ∈ q ∧ ∀ v', (k, v') ∈ q → v' = v.

Definition payload (info : DebugInfo.t) (k : string) : option JsValue :=
  DebugInfo.trace_payload info !! k.

(** The fields of a [DebugInfo] other than the payload, the final URL and
    the timestamp are the same. *)
Definition same_verdict (i1 i2 : DebugInfo.t) : Prop :=
  DebugInfo.error i1 = DebugInfo.error i2
  ∧ DebugInfo.api_key_valid i1 = DebugInfo.api_key_valid i2
  ∧ DebugInfo.api_key_info i1 = DebugInfo.api_key_info i2.

(** The payloads agree on every key outside [ks]. *)
Definition same_payload_except (ks : list string) (i1 i2 : DebugInfo.t) : Prop :=
  ∀ k, k ∉ ks → payload i1 k = payload i2 k.

(** ** Statements of the design document that the code does not satisfy
    as they are worded *)

Section AsStated.
Context (B : Browser).
Implicit Types (O : Oracle) (p : gmap string string) (s : State).

(** Every non-empty extra parameter is in the query of the final URL. *)
Definition final_url_has_every_extra O p s : Prop :=
  ∀ r url0, p !! "redirect_url" = Some r → r ≠ "" → URL_new B r = inr url0 →
  ∃ info trace_id,
    produced B O p s = Some info ∧ generated B O p s = [trace_id] ∧
    let url := add_params (extraParams p) trace_id (p !! "api_key") url0 in
    DebugInfo.final_url info = URL_toString B url ∧
    (∀ k v, extraParams p !! k = Some v → v ≠ "" → (k, v) ∈ URL.searchParams url) ∧
    ("trace_id", trace_id) ∈ URL.searchParams url ∧
    (∀ key, p !! "api_key" = Some key → key ≠ "" →
            ("api_key", key) ∈ URL.searchParams url) ∧
    (∀ k, extraParams p !! k = Some "" →
          URL.named k (URL.searchParams url) = URL.named k (URL.searchParams url0)).

(** A failed validation call always ends in the invalid-key state. *)
Definition failed_fetch_gives_invalid_key O p s : Prop :=
  ∀ r, fetched B O p s = [r] → fetch_failed r →
  ∃ info,
    produced B O p s = Some info ∧
    DebugInfo.api_key_valid info = Some (JBool false) ∧
    nullish (read (DebugInfo.api_key_info info)) = true ∧
    (is_Some (p !! "campaign_id") → is_Some (p !! "redirect_url") →
     is_Some (p !! "api_key") →
     DebugInfo.error info = Some "API key is invalid or inactive").

(** Whatever is thrown while the pass runs, by the validation call or by
    [new URL], stays inside and ends in the degraded [DebugInfo] with its
    message. *)
Definition every_error_degrades O p s : Prop :=
  (processDebugInfo B O p s).1 = inr tt
  ∧ ∀ message,
      fetched B O p s = [Rejects (ErrorObj message)]
      ∨ fetched B O p s = [Responds true (inl (ErrorObj message))]
      ∨ (∃ r, p !! "redirect_url" = Some r ∧ r ≠ "" ∧ URL_new B r = inl message) →
      ∃ info,
        produced B O p s = Some info
        ∧ (∀ k v, payload info k = Some v → v = JStr "")
        ∧ DebugInfo.final_url info = ""
        ∧ DebugInfo.error info = Some message.

(** An empty reserved parameter counts as absent for the idle check, is
    reported by the message that names it, and is recorded as [missing]. *)
Definition empty_reserved_is_reported O p s : Prop :=
  ∀ k, k ∈ reserved → p !! k = Some "" →
  (Missing p "campaign_id" → Missing p "redirect_url" → Missing p "api_key" →
   produced B O p s = None)
  ∧ ∀ info, produced B O p s = Some info →
      DebugInfo.error info = Some ("Missing required parameter: " ++ k)
      ∧ (k ≠ "api_key" → payload info k = Some (JStr "missing")).

(** Two passes differ in [id], [created_at] and [timestamp] only. *)
Definition reruns_differ_in_fresh_fields_only O1 O2 p s1 s2 : Prop :=
  fetched B O1 p s1 = fetched B O2 p s2 →
  ∀ i1 i2, produced B O1 p s1 = Some i1 → produced B O2 p s2 = Some i2 →
  same_payload_except ["id"; "created_at"] i1 i2
  ∧ DebugInfo.final_url i1 = DebugInfo.final_url i2
  ∧ same_verdict i1 i2.

(** A reserved key in the map, and no [redirect_url]: the missing
    [redirect_url] is reported. *)
Definition reports_missing_redirect_url O p s : Prop :=
  p !! "redirect_url" = None →
  is_Some (p !! "campaign_id") ∨ is_Some (p !! "api_key") →
  ∃ info,
    produced B O p s = Some info ∧
    DebugInfo.final_url info = "" ∧
    DebugInfo.error info = Some "Missing required parameter: redirect_url".

(** The payload's [id] is the identifier drawn by the pass. *)
Definition id_is_trace_id O p s : Prop :=
  ∀ info, produced B O p s = Some info →
  ∃ trace_id,
    generated B O p s = [trace_id] ∧
    payload info "id" = Some (JStr trace_id) ∧
    (∀ k v, payload info k = Some v → is_primitive v).
End AsStated.

(** ** The parameter reader

    Lines 33-40: the pairs of the page's query string, in order, are
    written into a fresh object. An assignment to the property
    [__proto__] of a plain object with a string on the right is ignored
    by JavaScript, so a parameter of that name leaves no key. *)
Definition readParams (entries : list (string * string)) : gmap string string :=
  foldl (λ paramsObj kv,
           if decide (kv.1 = "__proto__") then paramsObj else <[kv.1 := kv.2]> paramsObj)
        ∅ entries.

(** The state cells just after the first render: [useState(null)] and
    [useState(false)]. *)
Definition initial : State := mkState None false [].

(** Lines 33-40 and 43-154 at mount: the second effect first runs with the
    empty object of [useState({})], and again once the first effect has
    stored the parameters read. *)
Definition page_load (B : Browser) (O : Oracle) (entries : list (string * string)) : M unit :=
  processDebugInfo B O ∅;;
  processDebugInfo B O (readParams entries).

(** ** The view *)

(** [a || b] on possibly undefined strings. *)
Definition js_or (a b : option string) : option string :=
  if truthy a then a else b.

(** Lines 162-165. *)
Definition hasParams (searchParams : gmap string string) : option string :=
  js_or (js_or (searchParams !! "campaign_id") (searchParams !! "redirect_url"))
        (searchParams !! "api_key").

(** Line 195: the usage instructions. *)
Definition shows_instructions (searchParams : gmap string string) : bool :=
  negb (truthy (hasParams searchParams)).

(** Line 238: the spinner. *)
Definition shows_loading (s : State) : bool := isLoading s.

(** Line 248: the [DebugInfo] that the result panel displays, if the panel
    is rendered. *)
Definition shown_debugInfo (searchParams : gmap string string) (s : State)
    : option DebugInfo.t :=
  if negb (isLoading s) then
    match debugInfo s with
    | Some info => if truthy (hasParams searchParams) then Some info else None
    | None => None
    end
  else None.

(** Lines 260-268: the badge of the status box. *)
Inductive Badge : Type := BadgeError | BadgeValid.

Definition status_badge (info : DebugInfo.t) : Badge :=
  if truthy (DebugInfo.error info) then BadgeError else BadgeValid.

(** Lines 280-293: the line "API Key Status", when it is rendered. *)
Inductive KeyStatus : Type := ValidAndActive | InvalidOrInactive.

Definition key_status (info : DebugInfo.t) : option KeyStatus :=
  match read (DebugInfo.api_key_valid info) with
  | JUndefined => None
  | api_key_valid =>
      if ToBoolean api_key_valid then Some ValidAndActive else Some InvalidOrInactive
  end.

(** Lines 308-326: the table of the query parameters; an empty value is
    shown as the word "empty" in italics. *)
Inductive Cell : Type := Text (s : string) | EmptyMark.

Inductive ParamTable : Type :=
  | Rows (rows : list (string * Cell))
  | NoQueryParameters.

Definition param_table (searchParams : gmap string string) : ParamTable :=
  match map_to_list searchParams with
  | [] => NoQueryParameters
  | entries =>
      Rows ((λ kv, (kv.1, if truthy (Some kv.2) then Text kv.2 else EmptyMark))
              <$> entries)
  end.

(** Lines 332-358: the box of the final URL with its two buttons, when it
    is rendered: the text of the input and the label of the copy button. *)
Definition final_url_box (info : DebugInfo.t) (copied : bool) : option (string * string) :=
  if truthy (Some (DebugInfo.final_url info)) then
    Some (DebugInfo.final_url info, if copied then "✓" else "Copy")
  else None.

(** Lines 376-391: the rows of the payload table. Lines 381-385 choose
    the text of a cell: the word null for [null], [JSON.stringify] for an
    object ([typeof] says object of an array too) and [String] for the
    rest. *)
Definition payload_cell (B : Browser) (v : JsValue) : string :=
  match v with
  | JNull => "null"
  | JArr _ | JObj _ => JSON_stringify B v
  | JUndefined => "undefined"
  | JBool b => if b then "true" else "false"
  | JNum n => Number_toString B n
  | JStr s => s
  end.

Definition payload_rows (B : Browser) (info : DebugInfo.t) : list (string * string) :=
  (λ kv, (kv.1, payload_cell B kv.2)) <$> map_to_list (DebugInfo.trace_payload info).

(** What React puts on the page for a value in braces: the text of a
    string or of a number, nothing for a boolean, [null] or [undefined],
    the items of an array one after the other; an object that is not an
    array is refused with an error ([None]). *)
Fixpoint child_text (B : Browser) (v : JsValue) : option string :=
  match v with
  | JStr s => Some s
  | JNum n => Some (Number_toString B n)
  | JUndefined | JNull | JBool _ => Some ""
  | JArr items =>
      foldr (λ item rest, t ← child_text B item; r ← rest; Some (t ++ r)) (Some "") items
  | JObj _ => None
  end.

(** Lines 396-432: the table of the key information, when it is
    rendered: the id, the status and the start of the token. Line 426
    calls [substring] on the token, which throws unless the token is a
    string; when that or the id makes the rendering fail, the table is
    [Some None]. *)
Definition token_display (token : string) : string :=
  substring 0 20 token ++ "...".

Definition key_info_block (B : Browser) (info : DebugInfo.t)
    : option (option (string * bool * string)) :=
  let api_key_info := read (DebugInfo.api_key_info info) in
  if ToBoolean api_key_info then
    Some (id ← child_text B (member api_key_info "id");
          token ← match member api_key_info "token" with
                  | JStr token => Some token
                  | _ => None
                  end;
          Some (id, ToBoolean (member api_key_info "isActive"), token_display token))
  else None.

(** ** The copy button

    Lines 156-160. [navigator.clipboard] is undefined outside a secure
    context, and then the call throws before anything else happens;
    otherwise the write is started and its promise is dropped, so the
    acknowledgement does not depend on what becomes of the write. *)
Inductive ClipboardWrite : Type :=
  | Unavailable (message : string)
  | WriteRejected
  | Written.

Record CopyState : Type := mkCopyState {
  copied : bool;
  (** the text on the clipboard, as far as this page wrote it *)
  clipboard : option string;
  (** the delays, in milliseconds, of the timeouts still pending *)
  timers : list nat
}.

Definition copyToClipboard (text : string) (w : ClipboardWrite) (c : CopyState)
    : (Exn + unit) * CopyState :=
  match w with
  | Unavailable message => (inl (ErrorObj message), c)
  | WriteRejected => (inr tt, mkCopyState true (clipboard c) (timers c ++ [2000]))
  | Written => (inr tt, mkCopyState true (Some text) (timers c ++ [2000]))
  end.

(** The oldest pending timeout runs [setCopied(false)]. *)
Definition timer_fires (c : CopyState) : CopyState :=
  match timers c with
  | [] => c
  | _ :: rest => mkCopyState false (clipboard c) rest
  end.

(** The states of the copy button that clicks and timeouts lead to. *)
Inductive copy_reachable : CopyState → Prop :=
  | reach_initial : copy_reachable (mkCopyState false None [])
  | reach_click text w c :
      copy_reachable c → copy_reachable (copyToClipboard text w c).2
  | reach_timeout c :
      copy_reachable c → timers c ≠ [] → copy_reachable (timer_fires c).

(** A [redirect_url] that has a query and a fragment of its own, with an
    empty extra parameter. *)
Definition redirect_with_query : gmap string string :=
  list_to_map
    [ ("redirect_url", "https://example.com/x?keep=1#top"); ("utm_term", "") ].

(** * Lemmas *)

(** ** Truthiness *)

Lemma truthy_or_default x : truthy (Some (or_default x "")) = truthy x.
Proof. by destruct x as [[|]|]. Qed.

Lemma or_default_falsy x d : truthy x = false → or_default x d = d.
Proof. by destruct x as [[|]|]. Qed.

Lemma or_default_truthy x d : truthy x = true → Some (or_default x d) = x.
Proof. by destruct x as [[|]|]. Qed.

Lemma truthy_true x : truthy x = true ↔ ∃ v, x = Some v ∧ v ≠ "".
Proof.
  destruct x as [[|a v]|]; simpl; split; try done.
  - by intros (v & [= <-] & ?).
  - intros _. by exists (String a v).
  - by intros (v & [=] & ?).
Qed.

Lemma truthy_false x : truthy x = false ↔ x = None ∨ x = Some "".
Proof.
  destruct x as [[|a v]|]; simpl; split; try done; try by intros [|].
  - by right.
  - by left.
Qed.

Lemma Supplied_truthy p k : Supplied p k ↔ truthy (p !! k) = true.
Proof. symmetry. apply truthy_true. Qed.

Lemma Missing_truthy p k : Missing p k ↔ truthy (p !! k) = false.
Proof. symmetry. apply truthy_false. Qed.

Lemma not_Missing p k : ¬ Missing p k ↔ Supplied p k.
Proof.
  rewrite Missing_truthy, Supplied_truthy. destruct (truthy (p !! k)); naive_solver.
Qed.

(** ** Object literals *)

Section Assign.
Context {V : Type}.
Implicit Types (o : gmap string V) (l : list (string * V)).

Lemma assign_notin o l k : k ∉ l.*1 → assign o l !! k = o !! k.
Proof.
  revert o. induction l as [|[k' v'] l IH]; intros o Hk; [done|].
  cbn in Hk. apply not_elem_of_cons in Hk as [Hne Hk].
  unfold assign in *. cbn. rewrite IH by done. by rewrite lookup_insert_ne.
Qed.

Lemma assign_NoDup o l k v :
  NoDup l.*1 → (k, v) ∈ l → assign o l !! k = Some v.
Proof.
  revert o. induction l as [|[k' v'] l IH]; intros o Hnd Hin.
  - by apply elem_of_nil in Hin.
  - cbn in Hnd. apply NoDup_cons in Hnd as [Hfresh Hnd].
    apply elem_of_cons in Hin as [[= -> ->]|Hin].
    + change (assign (<[k':=v']> o) l !! k' = Some v').
      rewrite assign_notin by done. apply lookup_insert_eq.
    + change (assign (<[k':=v']> o) l !! k = Some v). by apply IH.
Qed.

Lemma assign_Forall (P : string → V → Prop) o l :
  (∀ k v, o !! k = Some v → P k v) → (∀ kv, kv ∈ l → P kv.1 kv.2) →
  ∀ k v, assign o l !! k = Some v → P k v.
Proof.
  revert o. induction l as [|[k' v'] l IH]; intros o Ho Hl; [done|].
  change (assign o ((k', v') :: l)) with (assign (<[k':=v']> o) l).
  apply IH.
  - intros k v. rewrite lookup_insert. case_decide as Hk; [|by eauto].
    intros [= <-]. subst k. apply (Hl (k', v')), elem_of_cons. by left.
  - intros kv Hkv. apply Hl, elem_of_cons. by right.
Qed.
End Assign.

(** ** Query pairs *)

Section Pairs.
Implicit Types (l : list (string * string)) (k name : string).

Lemma named_cons k kv l :
  URL.named k (kv :: l) =
    if decide (kv.1 = k) then kv :: URL.named k l else URL.named k l.
Proof. reflexivity. Qed.

Lemma not_named_cons k kv l :
  URL.not_named k (kv :: l) =
    if decide (kv.1 ≠ k) then kv :: URL.not_named k l else URL.not_named k l.
Proof. reflexivity. Qed.

Lemma set_pairs_cons name val kv l :
  URL.set_pairs name val (kv :: l) =
    if decide (kv.1 = name) then (name, val) :: URL.not_named name l
    else kv :: URL.set_pairs name val l.
Proof. reflexivity. Qed.

Lemma named_not_named name l : URL.named name (URL.not_named name l) = [].
Proof.
  induction l as [|kv l IH]; [done|].
  rewrite not_named_cons. case_decide; [|done].
  rewrite named_cons. by case_decide.
Qed.

Lemma named_not_named_ne k name l :
  k ≠ name → URL.named k (URL.not_named name l) = URL.named k l.
Proof.
  intros Hne. induction l as [|kv l IH]; [done|].
  rewrite not_named_cons, named_cons.
  repeat case_decide; rewrite ?named_cons; repeat case_decide; congruence.
Qed.

(** After [set], the name has exactly the value set. *)
Lemma named_set_pairs name val l :
  URL.named name (URL.set_pairs name val l) = [(name, val)].
Proof.
  induction l as [|kv l IH].
  - change (URL.set_pairs name val []) with [(name, val)].
    rewrite named_cons. by case_decide.
  - rewrite set_pairs_cons. case_decide; rewrite named_cons; case_decide; try done.
    f_equal. apply named_not_named.
Qed.

(** [set] leaves the pairs of the other names as they are. *)
Lemma named_set_pairs_ne k name val l :
  k ≠ name → URL.named k (URL.set_pairs name val l) = URL.named k l.
Proof.
  intros Hne. induction l as [|kv l IH].
  - change (URL.set_pairs name val []) with [(name, val)].
    rewrite named_cons. by case_decide.
  - rewrite set_pairs_cons.
    case_decide; rewrite !named_cons; repeat case_decide; simplify_eq/=;
      rewrite ?IH; try done.
    by apply named_not_named_ne.
Qed.

Lemma elem_of_named k v l : (k, v) ∈ l ↔ (k, v) ∈ URL.named k l.
Proof.
  unfold URL.named. rewrite list_elem_of_filter. split; [by split|by intros []].
Qed.

Lemma named_singleton k v l :
  URL.named k l = [(k, v)] → (k, v) ∈ l ∧ ∀ v', (k, v') ∈ l → v' = v.
Proof.
  intros H. split.
  - apply elem_of_named. rewrite H. by apply list_elem_of_singleton.
  - intros v' Hv'. apply elem_of_named in Hv'. rewrite H in Hv'.
    apply list_elem_of_singleton in Hv'. congruence.
Qed.
End Pairs.

(** ** The parameters added to the final URL *)

Section AddParams.
Implicit Types (extras : gmap string string) (url : URL.t) (k : string).

Let add_extra (url : URL.t) (kv : string * string) : URL.t :=
  if truthy (Some kv.2) then URL.set kv.1 kv.2 url else url.

Lemma add_extras_skip k url (l : list (string * string)) :
  (∀ v, (k, v) ∈ l → v = "") →
  URL.named k (URL.searchParams (foldl add_extra url l))
  = URL.named k (URL.searchParams url).
Proof.
  revert url. induction l as [|[k' v'] l IH]; intros url Hk; [done|].
  cbn [foldl]. rewrite IH.
  - unfold add_extra. cbn [fst snd].
    destruct v' as [|a v']; [done|]. cbn [truthy URL.set URL.searchParams].
    apply named_set_pairs_ne. intros ->.
    by specialize (Hk (String a v') (list_elem_of_here _ _)).
  - intros v Hv. apply Hk. by apply list_elem_of_further.
Qed.

Lemma add_extras_set k v url (l : list (string * string)) :
  NoDup l.*1 → (k, v) ∈ l → v ≠ "" →
  URL.named k (URL.searchParams (foldl add_extra url l)) = [(k, v)].
Proof.
  revert url. induction l as [|[k' v'] l IH]; intros url Hnd Hin Hv.
  - by apply elem_of_nil in Hin.
  - cbn in Hnd. apply NoDup_cons in Hnd as [Hfresh Hnd]. cbn [foldl].
    apply elem_of_cons in Hin as [[= <- <-]|Hin]; [|by apply IH].
    rewrite add_extras_skip.
    + unfold add_extra. cbn [fst snd]. destruct v as [|a v]; [done|].
      apply named_set_pairs.
    + intros v'' Hin. destruct Hfresh.
      apply list_elem_of_fmap. by exists (k, v'').
Qed.

Lemma extraParams_lookup p k :
  extraParams p !! k =
    if decide (k = "campaign_id" ∨ k = "redirect_url" ∨ k = "api_key") then None
    else p !! k.
Proof.
  unfold extraParams. rewrite !lookup_delete.
  repeat case_decide; intuition congruence.
Qed.

Lemma extraParams_Some p k v :
  extraParams p !! k = Some v →
  p !! k = Some v ∧ k ≠ "campaign_id" ∧ k ≠ "redirect_url" ∧ k ≠ "api_key".
Proof. rewrite extraParams_lookup. case_decide; [done|]. tauto. Qed.

Lemma add_params_trace_id extras trace_id api_key url :
  URL.named "trace_id" (URL.searchParams (add_params extras trace_id api_key url))
  = [("trace_id", trace_id)].
Proof.
  unfold add_params. destruct (truthy api_key); cbn [URL.set URL.searchParams].
  - rewrite named_set_pairs_ne by done. apply named_set_pairs.
  - apply named_set_pairs.
Qed.

Lemma add_params_api_key extras trace_id api_key url :
  truthy api_key = true →
  URL.named "api_key" (URL.searchParams (add_params extras trace_id api_key url))
  = [("api_key", or_default api_key "")].
Proof.
  intros Hk. unfold add_params. rewrite Hk. apply named_set_pairs.
Qed.

Lemma add_params_other extras trace_id api_key url k :
  k ≠ "trace_id" → k ≠ "api_key" →
  URL.named k (URL.searchParams (add_params extras trace_id api_key url))
  = URL.named k (URL.searchParams (foldl add_extra url (map_to_list extras))).
Proof.
  intros Ht Hk. unfold add_params.
  destruct (truthy api_key); cbn [URL.set URL.searchParams];
    by rewrite !named_set_pairs_ne.
Qed.

Lemma add_params_extra extras trace_id api_key url k v :
  extras !! k = Some v → v ≠ "" → k ≠ "trace_id" → k ≠ "api_key" →
  URL.named k (URL.searchParams (add_params extras trace_id api_key url)) = [(k, v)].
Proof.
  intros Hkv Hv Ht Hk. rewrite add_params_other by done.
  apply add_extras_set; [apply NoDup_fst_map_to_list| |done].
  by apply elem_of_map_to_list.
Qed.

Lemma add_params_empty extras trace_id api_key url k :
  extras !! k = Some "" → k ≠ "trace_id" → k ≠ "api_key" →
  URL.named k (URL.searchParams (add_params extras trace_id api_key url))
  = URL.named k (URL.searchParams url).
Proof.
  intros Hkv Ht Hk. rewrite add_params_other by done.
  apply add_extras_skip. intros v Hv%elem_of_map_to_list. congruence.
Qed.
End AddParams.

(** ** The error check *)

Section SetError.
Implicit Types (r a c : option string) (info : DebugInfo.t).

Lemma set_error_payload r a c valid info :
  DebugInfo.trace_payload (set_error r a c valid info) = DebugInfo.trace_payload info.
Proof. unfold set_error. by repeat destruct (negb _). Qed.

Lemma set_error_final_url r a c valid info :
  DebugInfo.final_url (set_error r a c valid info) = DebugInfo.final_url info.
Proof. unfold set_error. by repeat destruct (negb _). Qed.

Lemma set_error_valid r a c valid info :
  DebugInfo.api_key_valid (set_error r a c valid info) = DebugInfo.api_key_valid info.
Proof. unfold set_error. by repeat destruct (negb _). Qed.

Lemma set_error_info r a c valid info :
  DebugInfo.api_key_info (set_error r a c valid info) = DebugInfo.api_key_info info.
Proof. unfold set_error. by repeat destruct (negb _). Qed.

Lemma set_error_error r a c valid info :
  DebugInfo.error info = None →
  DebugInfo.error (set_error r a c valid info) =
    if negb (truthy r) then Some "Missing required parameter: redirect_url"
    else if negb (truthy a) then Some "Missing required parameter: api_key"
    else if negb (truthy c) then Some "Missing required parameter: campaign_id"
    else if negb (ToBoolean valid) then Some "API key is invalid or inactive"
    else None.
Proof. intros H. unfold set_error. by repeat destruct (negb _). Qed.
End SetError.

(** ** Running a pass *)

Section Run.
Context (B : Browser) (O : Oracle).
Implicit Types (p : gmap string string) (s : State).

#[local] Arguments make_trace_payload : simpl never.
#[local] Arguments set_error : simpl never.
#[local] Arguments degraded : simpl never.
#[local] Arguments add_params : simpl never.

Lemma validate_truthy api_key s :
  truthy api_key = true →
  validate B O api_key s =
    let r := fetch_at O (length (log s)) (endpoint B) (or_default api_key "") in
    (inr (checked r), emit (EFetch (endpoint B) (or_default api_key "") r) s).
Proof.
  intros Hk. unfold validate. rewrite Hk. unfold fetch, json. cbn zeta.
  fold (endpoint B).
  destruct (fetch_at O _ _ _) as [e|[] [e|data]]; try reflexivity.
  cbn. by destruct (get data "isActive").
Qed.

Lemma validate_falsy api_key s :
  truthy api_key = false → validate B O api_key s = (inr (JNull, JBool false), s).
Proof. intros Hk. unfold validate. by rewrite Hk. Qed.

Lemma length_snoc {A} (l : list A) (x : A) : length (l ++ [x]) = S (length l).
Proof. rewrite length_app. simpl. lia. Qed.

Ltac run_rest p :=
  unfold randomUUID, now, compute_final_url, emit, mbind, M_bind, bind, newURL;
  cbn [log]; rewrite !length_snoc, truthy_or_default;
  destruct (truthy (p !! "redirect_url")) eqn:?;
  [ destruct (URL_new B _)
  | rewrite (or_default_falsy (p !! "redirect_url") "") by done ];
  cbn; rewrite ?length_snoc; unfold setDebugInfo, setIsLoading; cbn;
  rewrite <- ?app_assoc; reflexivity.

(** The outcome of a pass: nothing at all when idle, and otherwise the
    events [pass_events], leaving the state [pass_info]. *)
Lemma processDebugInfo_run p s :
  processDebugInfo B O p s =
    if is_idle p then (inr tt, s)
    else (inr tt, mkState (Some (pass_info B O p s)) false
                          (log s ++ pass_events B O p s)).
Proof.
  unfold processDebugInfo. fold (is_idle p).
  destruct (is_idle p); [reflexivity|].
  unfold pass_events, pass_info, pass_key, pass_url, pass_trace_id, pass_tick, pass_fetch.
  unfold try_finally, try_catch, synthesize, on_error, mbind, M_bind, bind.
  unfold setIsLoading at 1.
  destruct (truthy (p !! "api_key")) eqn:Hk.
  - rewrite validate_truthy by done. cbn zeta. cbn [log emit from_option].
    rewrite !length_snoc.
    destruct (checked _) as [aki akv]. run_rest p.
  - rewrite validate_falsy by done. cbn zeta. cbn [log emit from_option].
    run_rest p.
Qed.

Lemma events_run p s :
  events B O p s = if is_idle p then [] else pass_events B O p s.
Proof.
  unfold events. rewrite processDebugInfo_run.
  destruct (is_idle p); cbn [snd log].
  - apply drop_all.
  - apply drop_app_length.
Qed.

Lemma produced_run p s :
  produced B O p s = if is_idle p then None else Some (pass_info B O p s).
Proof.
  unfold produced. rewrite events_run.
  destruct (is_idle p); [reflexivity|].
  unfold pass_events. by destruct (pass_fetch B O p s).
Qed.

Lemma fetched_run p s :
  fetched B O p s = if is_idle p then [] else option_list (pass_fetch B O p s).
Proof.
  unfold fetched. rewrite events_run.
  destruct (is_idle p); [reflexivity|].
  unfold pass_events. by destruct (pass_fetch B O p s).
Qed.

Lemma generated_run p s :
  generated B O p s = if is_idle p then [] else [pass_trace_id O p s].
Proof.
  unfold generated. rewrite events_run.
  destruct (is_idle p); [reflexivity|].
  unfold pass_events. by destruct (pass_fetch B O p s).
Qed.

Lemma produced_Some p s info :
  produced B O p s = Some info → is_idle p = false ∧ info = pass_info B O p s.
Proof. rewrite produced_run. destruct (is_idle p); [done|]. by intros [= <-]. Qed.

Lemma is_idle_true p :
  is_idle p = true ↔
  Missing p "campaign_id" ∧ Missing p "redirect_url" ∧ Missing p "api_key".
Proof.
  unfold is_idle. rewrite !Missing_truthy, !andb_true_iff, !negb_true_iff. tauto.
Qed.

Lemma is_idle_false p :
  is_idle p = false ↔
  Supplied p "campaign_id" ∨ Supplied p "redirect_url" ∨ Supplied p "api_key".
Proof.
  unfold is_idle. rewrite !Supplied_truthy.
  destruct (truthy (p !! "campaign_id")), (truthy (p !! "redirect_url")),
    (truthy (p !! "api_key")); cbn; intuition discriminate.
Qed.

(** The final URL of a pass that is not degraded. *)
Lemma pass_url_parses p s :
  parses B p →
  (Missing p "redirect_url" ∧ pass_url B O p s = inr "")
  ∨ (∃ r url, p !! "redirect_url" = Some r ∧ r ≠ "" ∧ URL_new B r = inr url ∧
       pass_url B O p s =
         inr (URL_toString B
                (add_params (extraParams p) (pass_trace_id O p s) (p !! "api_key") url))).
Proof.
  intros Hp. unfold pass_url.
  destruct (truthy (p !! "redirect_url")) eqn:Hr.
  - right. apply truthy_true in Hr as (r & Hr & Hne).
    destruct (Hp r Hr Hne) as [url Hurl]. exists r, url.
    rewrite Hr. destruct r; [done|]. cbn. by rewrite Hurl.
  - left. by rewrite Missing_truthy.
Qed.

Lemma pass_info_ok p s final_url :
  pass_url B O p s = inr final_url →
  pass_info B O p s =
    set_error (p !! "redirect_url") (p !! "api_key") (p !! "campaign_id")
      (pass_key B O p s).2
      (DebugInfo.mk
         (make_trace_payload B (pass_trace_id O p s) (now_at O (S (pass_tick p s)))
            (p !! "campaign_id") (p !! "redirect_url") (pass_key B O p s).1
            final_url (extraParams p))
         final_url (now_at O (S (S (pass_tick p s)))) None
         (Some (pass_key B O p s).2) (Some (pass_key B O p s).1)).
Proof. intros H. unfold pass_info. by rewrite H. Qed.

Lemma pass_info_degraded p s message :
  pass_url B O p s = inl message →
  pass_info B O p s = degraded message (now_at O (S (S (pass_tick p s)))).
Proof. intros H. unfold pass_info. by rewrite H. Qed.

Lemma pass_url_degraded p s message :
  pass_url B O p s = inl message →
  ∃ r, p !! "redirect_url" = Some r ∧ r ≠ "" ∧ URL_new B r = inl message.
Proof.
  unfold pass_url. destruct (truthy (p !! "redirect_url")) eqn:Hr; [|done].
  apply truthy_true in Hr as (r & Hr & Hne). rewrite Hr.
  destruct r; [done|]. cbn. destruct (URL_new B _) eqn:Hu; [|done].
  intros [= <-]. eauto.
Qed.

Lemma pass_url_missing p s :
  Missing p "redirect_url" → pass_url B O p s = inr "".
Proof. rewrite Missing_truthy. intros H. unfold pass_url. by rewrite H. Qed.

Lemma pass_error p s final_url :
  pass_url B O p s = inr final_url →
  DebugInfo.error (pass_info B O p s) =
    if negb (truthy (p !! "redirect_url")) then
      Some "Missing required parameter: redirect_url"
    else if negb (truthy (p !! "api_key")) then
      Some "Missing required parameter: api_key"
    else if negb (truthy (p !! "campaign_id")) then
      Some "Missing required parameter: campaign_id"
    else if negb (ToBoolean (pass_key B O p s).2) then
      Some "API key is invalid or inactive"
    else None.
Proof. intros H. rewrite (pass_info_ok _ _ _ H). by apply set_error_error. Qed.

Lemma pass_valid p s final_url :
  pass_url B O p s = inr final_url →
  DebugInfo.api_key_valid (pass_info B O p s) = Some (pass_key B O p s).2.
Proof. intros H. rewrite (pass_info_ok _ _ _ H). by rewrite set_error_valid. Qed.

Lemma pass_key_info p s final_url :
  pass_url B O p s = inr final_url →
  DebugInfo.api_key_info (pass_info B O p s) = Some (pass_key B O p s).1.
Proof. intros H. rewrite (pass_info_ok _ _ _ H). by rewrite set_error_info. Qed.

Lemma pass_final_url p s final_url :
  pass_url B O p s = inr final_url →
  DebugInfo.final_url (pass_info B O p s) = final_url.
Proof. intros H. rewrite (pass_info_ok _ _ _ H). by rewrite set_error_final_url. Qed.

Lemma pass_payload p s final_url :
  pass_url B O p s = inr final_url →
  DebugInfo.trace_payload (pass_info B O p s) =
    make_trace_payload B (pass_trace_id O p s) (now_at O (S (pass_tick p s)))
      (p !! "campaign_id") (p !! "redirect_url") (pass_key B O p s).1
      final_url (extraParams p).
Proof. intros H. rewrite (pass_info_ok _ _ _ H). by rewrite set_error_payload. Qed.

Lemma parses_pass_url p s :
  parses B p → ∃ final_url, pass_url B O p s = inr final_url.
Proof. intros [[_ H]|(r & url & _ & _ & _ & H)]%(pass_url_parses p s); eauto. Qed.
End Run.

(** ** The validation call *)

Section Validation.
Context (B : Browser) (O : Oracle).
Implicit Types (p : gmap string string) (s : State) (data : JsValue).

Lemma member_nullish data name : nullish data = true → member data name = JUndefined.
Proof. by destruct data. Qed.

Lemma get_optional_member data name : get_optional data name = member data name.
Proof. by destruct data. Qed.

Lemma to_js_members (d : ApiKeyInfo.t) :
  member (ApiKeyInfo.to_js d) "id" = JStr (ApiKeyInfo.id d)
  ∧ member (ApiKeyInfo.to_js d) "isActive" = JBool (ApiKeyInfo.isActive d)
  ∧ member (ApiKeyInfo.to_js d) "token" = JStr (ApiKeyInfo.token d).
Proof. done. Qed.

Lemma ToBoolean_JStr x : ToBoolean (JStr x) = truthy (Some x).
Proof. by destruct x. Qed.

Lemma or_else_unknown v :
  or_else v (JStr "unknown") = JStr "unknown" ∧ ToBoolean v = false
  ∨ or_else v (JStr "unknown") = v ∧ ToBoolean v = true.
Proof. unfold or_else. destruct (ToBoolean v); [by right|by left]. Qed.

(** The flag after a 2xx answer with a body: [false] when the body is
    [null], whose [isActive] cannot be read, and the body's [isActive]
    otherwise. *)
Lemma checked_flag data :
  (checked (Responds true (inr data))).2 =
    if nullish data then JBool false else member data "isActive".
Proof. unfold checked, get. by destruct (nullish data). Qed.

Lemma checked_valid r :
  ToBoolean (checked r).2 = true ↔
  ∃ data, r = Responds true (inr data) ∧ ToBoolean (member data "isActive") = true.
Proof.
  destruct r as [e|[] [e|data]]; try (split; [done|by intros (? & [=] & _)]).
  rewrite checked_flag. split.
  - destruct (nullish data) eqn:Hn; [done|]. intros Hv. by exists data.
  - intros (data' & [= <-] & Hv). destruct (nullish data) eqn:Hn; [|done].
    by rewrite member_nullish in Hv.
Qed.

Lemma checked_failed r : fetch_failed r → checked r = (JNull, JBool false).
Proof. by destruct r as [e|[] body]. Qed.

Lemma checked_throws r :
  validation_throws r → (checked r).2 = JBool false ∧ nullish (checked r).1 = true.
Proof.
  destruct r as [e|[] [e|data]]; try done. cbn [validation_throws]. intros Hn.
  rewrite checked_flag, Hn. by split.
Qed.

(** The locals of a pass, from the answers it got. *)
Lemma pass_key_fetched p s :
  is_idle p = false →
  pass_key B O p s =
    match fetched B O p s with
    | [r] => checked r
    | _ => (JNull, JBool false)
    end.
Proof.
  intros Hidle. rewrite fetched_run, Hidle. unfold pass_key.
  by destruct (pass_fetch B O p s).
Qed.

Lemma pass_key_valid p s :
  is_idle p = false →
  ToBoolean (pass_key B O p s).2 = true ↔
  ∃ data, fetched B O p s = [Responds true (inr data)]
          ∧ ToBoolean (member data "isActive") = true.
Proof.
  intros Hidle. rewrite (pass_key_fetched p s Hidle).
  destruct (fetched B O p s) as [|r [|r' l]].
  - split; [done|by intros (? & [=] & _)].
  - rewrite checked_valid. split.
    + intros (data & -> & Hv). by exists data.
    + intros (data & [= ->] & Hv). by exists data.
  - split; [done|by intros (? & [=] & _)].
Qed.

Lemma pass_key_body p s data :
  is_idle p = false →
  fetched B O p s = [Responds true (inr data)] →
  pass_key B O p s = (data, if nullish data then JBool false else member data "isActive").
Proof.
  intros Hidle Hf. rewrite (pass_key_fetched p s Hidle), Hf.
  apply injective_projections; [done|apply checked_flag].
Qed.

Lemma pass_key_info_cases p s :
  is_idle p = false →
  (∃ data, fetched B O p s = [Responds true (inr data)] ∧ (pass_key B O p s).1 = data)
  ∨ (pass_key B O p s).1 = JNull.
Proof.
  intros Hidle. rewrite (pass_key_fetched p s Hidle).
  destruct (fetched B O p s) as [|[e|[] [e|data]] [|r' l]]; try by right.
  left. by exists data.
Qed.

(** The identifier of a pass is drawn at a call that the pass makes. *)
Lemma pass_tick_bounds p s :
  is_idle p = false →
  length (log s) < pass_tick p s
  ∧ pass_tick p s < length (log (processDebugInfo B O p s).2).
Proof.
  intros Hidle. rewrite processDebugInfo_run, Hidle. cbn [snd log].
  rewrite length_app. unfold pass_events, pass_tick, pass_fetch.
  destruct (truthy (p !! "api_key")); cbn; lia.
Qed.
End Validation.

(** ** The assembled payload *)

Section Payload.
Context (B : Browser).
Implicit Types (extras : gmap string string) (k : string).

Lemma NoDup_network_block : NoDup (network_block B).*1.
Proof. cbn. by apply (bool_decide_unpack _). Qed.

Lemma network_block_strings kv : kv ∈ network_block B → is_string kv.2.
Proof.
  intros H. unfold network_block in H.
  repeat (apply elem_of_cons in H as [->|H]; [by eexists|]).
  by apply elem_of_nil in H.
Qed.

Lemma spread_lookup {V} (o src : gmap string V) k :
  spread o src !! k = match src !! k with Some v => Some v | None => o !! k end.
Proof. unfold spread. rewrite lookup_union. by destruct (src !! k), (o !! k). Qed.

Lemma assign_agree {V} (o1 o2 : gmap string V) l k :
  o1 !! k = o2 !! k → assign o1 l !! k = assign o2 l !! k.
Proof.
  revert o1 o2. induction l as [|[k' v'] l IH]; intros o1 o2 H; [done|].
  change (assign (<[k':=v']> o1) l !! k = assign (<[k':=v']> o2) l !! k).
  apply IH. rewrite !lookup_insert. by case_decide.
Qed.

(** A key of the network block has the block's value. *)
Lemma make_trace_payload_block trace_id created_at c r aki final_url extras k v :
  (k, v) ∈ network_block B →
  make_trace_payload B trace_id created_at c r aki final_url extras !! k = Some v.
Proof. intros H. apply assign_NoDup; [apply NoDup_network_block|done]. Qed.

(** One of the six fixed fields has the value of the extra parameter of
    that name, if there is one, and its own value otherwise. *)
Lemma make_trace_payload_fixed trace_id created_at c r aki final_url extras k :
  k ∉ (network_block B).*1 →
  make_trace_payload B trace_id created_at c r aki final_url extras !! k =
    match extras !! k with
    | Some x => Some (JStr x)
    | None =>
        assign ∅
          [ ("id", JStr trace_id);
            ("created_at", JStr created_at);
            ("campaign_id", JStr (or_default c "missing"));
            ("api_key_id", or_else (get_optional aki "id") (JStr "unknown"));
            ("redirect_url", JStr (or_default r "missing"));
            ("final_url", JStr final_url) ] !! k
    end.
Proof.
  intros Hk. unfold make_trace_payload. cbn zeta.
  rewrite (assign_notin _ _ _ Hk), spread_lookup, lookup_fmap.
  by destruct (extras !! k).
Qed.

(** Every value of the payload is a string, except that [api_key_id]
    holds what line 100 computes when no extra parameter has that name. *)
Lemma make_trace_payload_values trace_id created_at c r aki final_url extras k v :
  make_trace_payload B trace_id created_at c r aki final_url extras !! k = Some v →
  is_string v
  ∨ k = "api_key_id" ∧ extras !! k = None
    ∧ v = or_else (get_optional aki "id") (JStr "unknown").
Proof.
  unfold make_trace_payload. cbn zeta. revert k v.
  apply (assign_Forall (λ k v, _)).
  - intros k v. rewrite spread_lookup, lookup_fmap.
    destruct (extras !! k) as [x|] eqn:He; cbn [fmap option_fmap option_map];
      [intros [= <-]; left; by eexists|].
    unfold assign. cbn [foldl fst snd]. rewrite !lookup_insert.
    repeat case_decide; subst; try (intros [= <-]; left; by eexists).
    intros [= <-]. by right.
  - intros kv H. left. by apply network_block_strings.
Qed.

Lemma degraded_strings message timestamp k v :
  payload (degraded message timestamp) k = Some v → v = JStr "".
Proof.
  unfold payload, degraded. cbn [DebugInfo.trace_payload]. revert k v.
  apply (assign_Forall (λ _ v, v = JStr "")); [done|].
  intros kv H. repeat (apply elem_of_cons in H as [->|H]; [done|]).
  by apply elem_of_nil in H.
Qed.
End Payload.

(** ** Two payloads of the same parameters *)

Section Agree.
Context (B : Browser).

Lemma make_trace_payload_agree t1 t2 c1 c2 c r aki fu1 fu2 extras k :
  k ∉ ["id"; "created_at"; "final_url"] →
  make_trace_payload B t1 c1 c r aki fu1 extras !! k
  = make_trace_payload B t2 c2 c r aki fu2 extras !! k.
Proof.
  intros Hk. unfold make_trace_payload. cbn zeta.
  apply assign_agree. rewrite !spread_lookup.
  destruct ((JStr <$> extras) !! k); [done|].
  unfold assign. cbn [foldl fst snd]. rewrite !lookup_insert.
  repeat case_decide; subst; try done; destruct Hk;
    repeat (first [apply list_elem_of_here | apply list_elem_of_further]).
Qed.

Lemma make_trace_payload_final_url t c1 c r aki fu extras :
  make_trace_payload B t c1 c r aki fu extras !! "final_url"
  = Some (JStr (default fu (extras !! "final_url"))).
Proof.
  rewrite make_trace_payload_fixed.
  - by destruct (extras !! "final_url").
  - cbn. intros H. repeat (apply elem_of_cons in H as [?|H]; [done|]).
    by apply elem_of_nil in H.
Qed.

Lemma make_trace_payload_reserved t c1 c r aki fu extras k :
  k = "campaign_id" ∨ k = "redirect_url" →
  extras !! k = None →
  make_trace_payload B t c1 c r aki fu extras !! k
  = Some (JStr (or_default (if decide (k = "campaign_id") then c else r) "missing")).
Proof.
  intros Hk He. rewrite make_trace_payload_fixed.
  - rewrite He. by destruct Hk as [-> | ->].
  - cbn. intros H. destruct Hk as [-> | ->];
      repeat (apply elem_of_cons in H as [?|H]; [done|]);
      by apply elem_of_nil in H.
Qed.

Lemma extraParams_delete p k :
  k ∈ ["campaign_id"; "redirect_url"; "api_key"] →
  extraParams (delete k p) = extraParams p.
Proof.
  intros Hk. apply map_eq. intros i. rewrite !extraParams_lookup.
  case_decide as Hi; [done|]. apply lookup_delete_ne. intros ->.
  repeat (apply elem_of_cons in Hk as [->|Hk]; [tauto|]).
  by apply elem_of_nil in Hk.
Qed.
End Agree.

(** ** The values of the payload *)

Section Values.
Context (B : Browser) (O : Oracle).
Implicit Types (p : gmap string string) (s : State).

Lemma pass_payload_values p s k v :
  is_idle p = false →
  payload (pass_info B O p s) k = Some v →
  is_string v
  ∨ k = "api_key_id"
    ∧ ∃ data, fetched B O p s = [Responds true (inr data)]
              ∧ v = member data "id" ∧ ToBoolean v = true.
Proof.
  intros Hidle. unfold payload. destruct (pass_url B O p s) as [m|fu] eqn:Hurl.
  - rewrite (pass_info_degraded _ _ _ _ _ Hurl).
    intros ->%degraded_strings. left. by eexists.
  - rewrite (pass_payload _ _ _ _ _ Hurl).
    intros [Hs|(-> & _ & ->)]%make_trace_payload_values; [by left|].
    rewrite get_optional_member.
    destruct (or_else_unknown (member (pass_key B O p s).1 "id")) as [[-> _]|[-> Hv]];
      [left; by eexists|].
    destruct (pass_key_info_cases B O p s Hidle) as [(data & Hf & Hd)|Hd];
      rewrite Hd in Hv |- *; [|done].
    right. split; [done|]. by exists data.
Qed.

Lemma pass_key_info_truthy p s :
  is_idle p = false →
  ToBoolean (pass_key B O p s).1 = true ↔
  ∃ data, fetched B O p s = [Responds true (inr data)] ∧ ToBoolean data = true.
Proof.
  intros Hidle. split.
  - intros Ht. destruct (pass_key_info_cases B O p s Hidle) as [(data & Hf & Hd)|Hd];
      rewrite Hd in Ht; [|done]. by exists data.
  - intros (data & Hf & Ht). by rewrite (pass_key_body B O p s data Hidle Hf).
Qed.

Lemma pass_key_undefined p s :
  is_idle p = false →
  (pass_key B O p s).2 = JUndefined ↔
  ∃ data, fetched B O p s = [Responds true (inr data)]
          ∧ nullish data = false ∧ member data "isActive" = JUndefined.
Proof.
  intros Hidle. rewrite (pass_key_fetched B O p s Hidle).
  destruct (fetched B O p s) as [|[e|[] [e|data]] [|r' l]];
    try (split; [done|by intros (? & [=] & _)]).
  rewrite checked_flag. split.
  - destruct (nullish data) eqn:Hn; [done|]. intros Hv. by exists data.
  - intros (data' & [= <-] & -> & Hv). done.
Qed.
End Values.

(** ** The reference browser on the examples *)

Section Examples.
Import Reference.

Lemma parses_example (p : gmap string string) :
  p !! "redirect_url" = Some "https://example.com/x" → parses browser p.
Proof.
  intros Hp r Hr _. rewrite Hp in Hr. injection Hr as <-. by exists example_url.
Qed.

Lemma parses_without (p : gmap string string) :
  p !! "redirect_url" = None → parses browser p.
Proof. intros Hp r Hr. by rewrite Hp in Hr. Qed.

(** The scenario of the design document: a valid key. *)
Example scenario_valid_key :
  (λ info, (DebugInfo.final_url info, DebugInfo.error info, DebugInfo.api_key_valid info))
    <$> produced browser (world active_key) scenario idle
  = Some ("https://example.com/x?utm_source=newsletter&trace_id=3b241101-e2bb-4255-8caf-4136c566a962&api_key=k1",
          None, Some (JBool true)).
Proof. vm_compute. reflexivity. Qed.

(** The same with HTTP 401. *)
Example scenario_unauthorized :
  (λ info, (DebugInfo.error info, DebugInfo.api_key_valid info, DebugInfo.api_key_info info))
    <$> produced browser (world unauthorized) scenario idle
  = Some (Some "API key is invalid or inactive", Some (JBool false), Some JNull).
Proof. vm_compute. reflexivity. Qed.

(** A [redirect_url] that is not a URL, with HTTP 401. *)
Example unparseable_degraded :
  (λ info, (DebugInfo.final_url info, DebugInfo.error info, DebugInfo.api_key_valid info,
            payload info "campaign_id"))
    <$> produced browser (world unauthorized) unparseable idle
  = Some ("", Some "Invalid URL", None, Some (JStr "")).
Proof. vm_compute. reflexivity. Qed.

(** An extra parameter called [trace_id] does not reach the final URL. *)
Example extra_trace_id_replaced :
  DebugInfo.final_url <$> produced browser (world active_key) extra_trace_id idle
  = Some "https://example.com/x?trace_id=3b241101-e2bb-4255-8caf-4136c566a962".
Proof. vm_compute. reflexivity. Qed.

(** An extra parameter called [id] takes the place of the identifier. *)
Example extra_id_wins :
  (λ info, payload info "id") <$> produced browser (world active_key) extra_id idle
  = Some (Some (JStr "mine")).
Proof. vm_compute. reflexivity. Qed.

(** The network fails: the pass goes on and reports an invalid key. *)
Example unreachable_swallowed :
  (λ info, (DebugInfo.error info, DebugInfo.api_key_valid info, payload info "id"))
    <$> produced browser (world unreachable) scenario idle
  = Some (Some "API key is invalid or inactive", Some (JBool false),
          Some (JStr "3b241101-e2bb-4255-8caf-4136c566a962")).
Proof. vm_compute. reflexivity. Qed.

(** A 2xx body whose id is an object: the object is the payload's
    [api_key_id]. *)
Example nested_id_in_payload :
  (λ info, payload info "api_key_id")
    <$> produced browser (world nested_id) scenario idle
  = Some (Some (JObj [("n", JNum 7)])).
Proof. vm_compute. reflexivity. Qed.

(** A 2xx body without [isActive]: the flag stored is [undefined]. *)
Example empty_object_flag :
  (λ info, (DebugInfo.api_key_valid info, DebugInfo.api_key_info info,
            DebugInfo.error info, payload info "api_key_id"))
    <$> produced browser (world empty_object) scenario idle
  = Some (Some JUndefined, Some (JObj []), Some "API key is invalid or inactive",
          Some (JStr "unknown")).
Proof. vm_compute. reflexivity. Qed.

(** Only an empty [campaign_id]: nothing happens. *)
Example empty_campaign_id_only :
  processDebugInfo browser (world active_key) {[ "campaign_id" := "" ]} idle
  = (inr tt, idle).
Proof. vm_compute. reflexivity. Qed.
End Examples.

(** * The statements of the design document *)

(** C1. In a pass that produces a [DebugInfo] and is not degraded, the
    error is decided by the first condition that holds, in this order: a
    missing [redirect_url], a missing [api_key], a missing [campaign_id],
    a key that is not valid; when none holds there is no error. The key is
    valid when the flag that the pass stored is truthy, which is exactly
    when the validation service answered 2xx with a body whose [isActive]
    is truthy; for a body of the declared shape the flag is its
    [isActive]. *)
Theorem C1_error_order B O p s info :
  produced B O p s = Some info →
  parses B p →
  (Missing p "redirect_url" →
     DebugInfo.error info = Some "Missing required parameter: redirect_url")
  ∧ (¬ Missing p "redirect_url" → Missing p "api_key" →
     DebugInfo.error info = Some "Missing required parameter: api_key")
  ∧ (¬ Missing p "redirect_url" → ¬ Missing p "api_key" → Missing p "campaign_id" →
     DebugInfo.error info = Some "Missing required parameter: campaign_id")
  ∧ (¬ Missing p "redirect_url" → ¬ Missing p "api_key" → ¬ Missing p "campaign_id" →
     ToBoolean (read (DebugInfo.api_key_valid info)) = false →
     DebugInfo.error info = Some "API key is invalid or inactive")
  ∧ (¬ Missing p "redirect_url" → ¬ Missing p "api_key" → ¬ Missing p "campaign_id" →
     ToBoolean (read (DebugInfo.api_key_valid info)) = true →
     DebugInfo.error info = None)
  ∧ (ToBoolean (read (DebugInfo.api_key_valid info)) = true ↔
     ∃ data, fetched B O p s = [Responds true (inr data)] ∧
             ToBoolean (member data "isActive") = true)
  ∧ (∀ data : ApiKeyInfo.t,
       fetched B O p s = [Responds true (inr (ApiKeyInfo.to_js data))] →
       DebugInfo.api_key_valid info = Some (JBool (ApiKeyInfo.isActive data))).
Proof.
  intros [Hidle ->]%produced_Some Hp.
  destruct (parses_pass_url B O p s Hp) as [final_url Hurl].
  rewrite (pass_error _ _ _ _ _ Hurl), (pass_valid _ _ _ _ _ Hurl).
  change (read (Some (pass_key B O p s).2)) with (pass_key B O p s).2.
  rewrite !not_Missing, !Missing_truthy, !Supplied_truthy.
  split; [by intros ->|]. split; [by intros -> ->|]. split; [by intros -> -> ->|].
  split; [by intros -> -> -> ->|]. split; [by intros -> -> -> ->|].
  split; [by apply pass_key_valid|].
  intros data Hf. by rewrite (pass_key_body B O p s _ Hidle Hf).
Qed.

Lemma C1_witness :
  ∃ info,
    produced Reference.browser (Reference.world Reference.unauthorized)
      Reference.scenario Reference.idle = Some info
    ∧ DebugInfo.error info = Some "API key is invalid or inactive".
Proof.
  exists (pass_info Reference.browser (Reference.world Reference.unauthorized)
            Reference.scenario Reference.idle).
  split; [vm_compute; reflexivity|].
  refine (proj1 (proj2 (proj2 (proj2
    (C1_error_order Reference.browser (Reference.world Reference.unauthorized)
       Reference.scenario Reference.idle _ _ _)))) _ _ _ _).
  - vm_compute. reflexivity.
  - apply parses_example. vm_compute. reflexivity.
  - intros [H|H]; vm_compute in H; discriminate.
  - intros [H|H]; vm_compute in H; discriminate.
  - intros [H|H]; vm_compute in H; discriminate.
  - vm_compute. reflexivity.
Defined.

(** C2 as worded fails for an extra parameter called [trace_id]: the
    identifier of the pass replaces it. *)
Lemma C2_counterexample :
  ¬ final_url_has_every_extra Reference.browser (Reference.world Reference.active_key)
      Reference.extra_trace_id Reference.idle.
Proof.
  intros H.
  destruct (H "https://example.com/x" Reference.example_url)
    as (info & trace_id & Hp & Hg & Hfu & Hex & _).
  - vm_compute. reflexivity.
  - discriminate.
  - vm_compute. reflexivity.
  - vm_compute in Hg. injection Hg as <-.
    specialize (Hex "trace_id" "foo"). cbn zeta in Hex.
    assert (("trace_id", "foo") ∈ [("trace_id", Reference.uuid1)]) as Hin.
    { apply Hex; [vm_compute; reflexivity|discriminate]. }
    apply list_elem_of_singleton in Hin. discriminate.
Qed.

(** C2, restated without the extra parameter [trace_id]. When the
    [redirect_url] parses, the final URL is the serialisation of a URL
    whose query has: every non-empty extra parameter not called
    [trace_id], with the value of the extra parameter alone; [trace_id],
    with the identifier drawn by the pass alone; [api_key], when one is
    supplied, with that value alone. An extra parameter with an empty
    value and not called [trace_id] changes nothing: the pairs of its name
    are those of the [redirect_url]. *)
Theorem C2_final_url_query B O p s r url0 :
  p !! "redirect_url" = Some r → r ≠ "" → URL_new B r = inr url0 →
  ∃ info trace_id,
    produced B O p s = Some info ∧ generated B O p s = [trace_id] ∧
    let url := add_params (extraParams p) trace_id (p !! "api_key") url0 in
    DebugInfo.final_url info = URL_toString B url
    ∧ (∀ k v, extraParams p !! k = Some v → v ≠ "" → k ≠ "trace_id" →
              has_only (URL.searchParams url) k v)
    ∧ has_only (URL.searchParams url) "trace_id" trace_id
    ∧ (∀ key, p !! "api_key" = Some key → key ≠ "" →
              has_only (URL.searchParams url) "api_key" key)
    ∧ (∀ k, extraParams p !! k = Some "" → k ≠ "trace_id" →
            URL.named k (URL.searchParams url) = URL.named k (URL.searchParams url0)).
Proof.
  intros Hr Hne Hurl0.
  assert (is_idle p = false) as Hidle
    by (apply is_idle_false; right; left; by exists r).
  assert (pass_url B O p s =
    inr (URL_toString B
           (add_params (extraParams p) (pass_trace_id O p s) (p !! "api_key") url0)))
    as Hurl.
  { unfold pass_url. rewrite Hr. destruct r; [done|]. cbn. by rewrite Hurl0. }
  exists (pass_info B O p s), (pass_trace_id O p s).
  rewrite produced_run, generated_run, Hidle. do 2 (split; [done|]).
  cbn zeta. split; [by rewrite (pass_final_url _ _ _ _ _ Hurl)|].
  split; [|split; [|split]].
  - intros k v Hkv Hv Hk. apply named_singleton.
    apply add_params_extra; try done. by apply extraParams_Some in Hkv as (_ & _ & _ & ?).
  - apply named_singleton, add_params_trace_id.
  - intros key Hkey Hk. apply named_singleton.
    rewrite add_params_api_key, Hkey; [by destruct key|].
    apply truthy_true. eauto.
  - intros k Hkv Hk. apply add_params_empty; try done.
    by apply extraParams_Some in Hkv as (_ & _ & _ & ?).
Qed.

Lemma C2_witness :
  ∃ info url,
    produced Reference.browser (Reference.world Reference.active_key)
      Reference.scenario Reference.idle = Some info
    ∧ DebugInfo.final_url info = URL_toString Reference.browser url
    ∧ has_only (URL.searchParams url) "utm_source" "newsletter"
    ∧ has_only (URL.searchParams url) "trace_id" Reference.uuid1
    ∧ has_only (URL.searchParams url) "api_key" "k1".
Proof.
  destruct (C2_final_url_query Reference.browser (Reference.world Reference.active_key)
              Reference.scenario Reference.idle "https://example.com/x"
              Reference.example_url)
    as (info & trace_id & Hp & Hg & Hfu & Hex & Ht & Hk & _).
  - vm_compute. reflexivity.
  - discriminate.
  - vm_compute. reflexivity.
  - vm_compute in Hg. injection Hg as <-.
    exists info. eexists. split; [exact Hp|]. split; [exact Hfu|].
    split; [|split; [exact Ht|]].
    + apply Hex; [vm_compute; reflexivity|discriminate|discriminate].
    + apply Hk; [vm_compute; reflexivity|discriminate].
Defined.

(** C3. The payload is assembled from the six fixed fields, then the extra
    parameters, then the network block, and this shows in what the payload
    holds under each key. A key of the block has the block's value,
    whatever the extra parameters are: an extra parameter called
    [country], [city], [colo], [timezone], [asn], [user-agent] or
    [accept-language] is overwritten. Under any other key an extra
    parameter has its value, also under the name of a fixed field. A
    fixed field has its own value when no extra parameter has its name,
    and the payload has no further key. *)
Theorem C3_network_block_wins B O p s info :
  produced B O p s = Some info →
  parses B p →
  (∀ k v, (k, v) ∈ network_block B → payload info k = Some v)
  ∧ payload info "country" = Some (JStr "BR")
  ∧ payload info "city" = Some (JStr "São Paulo")
  ∧ payload info "colo" = Some (JStr "GRU")
  ∧ payload info "timezone" = Some (JStr "America/Sao_Paulo")
  ∧ payload info "asn" = Some (JStr "1234")
  ∧ payload info "user-agent" = Some (JStr (userAgent B))
  ∧ payload info "accept-language" = Some (JStr (language B))
  ∧ (∀ k x, Extra p k x → k ∉ network_names → payload info k = Some (JStr x))
  ∧ ∃ trace_id created_at,
      generated B O p s = [trace_id]
      ∧ ∀ k, (∀ x, ¬ Extra p k x) → k ∉ network_names →
          payload info k =
            (list_to_map
               [ ("id", JStr trace_id);
                 ("created_at", JStr created_at);
                 ("campaign_id", JStr (or_default (p !! "campaign_id") "missing"));
                 ("api_key_id",
                   or_else (get_optional (read (DebugInfo.api_key_info info)) "id")
                           (JStr "unknown"));
                 ("redirect_url", JStr (or_default (p !! "redirect_url") "missing"));
                 ("final_url", JStr (DebugInfo.final_url info)) ]
             : gmap string JsValue) !! k.
Proof.
  intros [Hidle ->]%produced_Some Hp.
  destruct (parses_pass_url B O p s Hp) as [final_url Hurl].
  unfold payload.
  rewrite (pass_payload _ _ _ _ _ Hurl), (pass_final_url _ _ _ _ _ Hurl),
    (pass_key_info _ _ _ _ _ Hurl).
  change (read (Some (pass_key B O p s).1)) with (pass_key B O p s).1.
  assert (∀ k v, (k, v) ∈ network_block B →
    make_trace_payload B (pass_trace_id O p s) (now_at O (S (pass_tick p s)))
      (p !! "campaign_id") (p !! "redirect_url") (pass_key B O p s).1 final_url
      (extraParams p) !! k = Some v) as Hblock
    by (intros k v; apply make_trace_payload_block).
  split; [exact Hblock|].
  do 7 (split; [apply Hblock; unfold network_block;
                repeat (first [apply list_elem_of_here | apply list_elem_of_further])|]).
  split.
  - intros k x [Hres Hk] Hnet. rewrite make_trace_payload_fixed by exact Hnet.
    rewrite extraParams_lookup, decide_False, Hk; [done|].
    intros Hr. apply Hres. unfold reserved.
    destruct Hr as [-> | [-> | ->]];
      repeat (first [apply list_elem_of_here | apply list_elem_of_further]).
  - exists (pass_trace_id O p s), (now_at O (S (pass_tick p s))).
    rewrite generated_run, Hidle. split; [done|].
    intros k Hno Hnet. rewrite make_trace_payload_fixed by exact Hnet.
    assert (extraParams p !! k = None) as ->.
    { rewrite extraParams_lookup. case_decide as Hr; [done|].
      destruct (p !! k) as [x|] eqn:Hk; [|done]. destruct (Hno x).
      split; [|done]. unfold reserved. intros Hin. apply Hr.
      repeat (apply elem_of_cons in Hin as [->|Hin]; [tauto|]).
      by apply elem_of_nil in Hin. }
    unfold assign. cbn [foldl fst snd list_to_map foldr uncurry].
    rewrite !lookup_insert, lookup_empty. repeat case_decide; congruence.
Qed.

Lemma C3_witness :
  (∃ info,
     produced Reference.browser (Reference.world Reference.active_key)
       Reference.extra_country Reference.idle = Some info
     ∧ extraParams Reference.extra_country !! "country" = Some "XX"
     ∧ payload info "country" = Some (JStr "BR"))
  ∧ (∃ info,
       produced Reference.browser (Reference.world Reference.active_key)
         Reference.scenario Reference.idle = Some info
       ∧ payload info "utm_source" = Some (JStr "newsletter")
       ∧ payload info "api_key" = None).
Proof.
  split.
  - exists (pass_info Reference.browser (Reference.world Reference.active_key)
              Reference.extra_country Reference.idle).
    split; [vm_compute; reflexivity|]. split; [vm_compute; reflexivity|].
    refine (proj1 (proj2
      (C3_network_block_wins Reference.browser (Reference.world Reference.active_key)
         Reference.extra_country Reference.idle _ _ _))).
    + vm_compute. reflexivity.
    + apply parses_without. vm_compute. reflexivity.
  - exists (pass_info Reference.browser (Reference.world Reference.active_key)
              Reference.scenario Reference.idle).
    split; [vm_compute; reflexivity|].
    destruct (C3_network_block_wins Reference.browser
                (Reference.world Reference.active_key) Reference.scenario Reference.idle
                (pass_info Reference.browser (Reference.world Reference.active_key)
                   Reference.scenario Reference.idle))
      as (_ & _ & _ & _ & _ & _ & _ & _ & Hextra & trace_id & created_at & _ & Hfixed).
    + vm_compute. reflexivity.
    + apply parses_example. vm_compute. reflexivity.
    + split.
      * apply Hextra.
        -- split; [|vm_compute; reflexivity].
           intros Hin. unfold reserved in Hin.
           repeat (apply elem_of_cons in Hin as [?|Hin]; [done|]).
           by apply elem_of_nil in Hin.
        -- intros Hin. unfold network_names in Hin.
           repeat (apply elem_of_cons in Hin as [?|Hin]; [done|]).
           by apply elem_of_nil in Hin.
      * rewrite Hfixed; [reflexivity| |].
        -- intros x [Hres _]. apply Hres. unfold reserved.
           repeat (first [apply list_elem_of_here | apply list_elem_of_further]).
        -- intros Hin. unfold network_names in Hin.
           repeat (apply elem_of_cons in Hin as [?|Hin]; [done|]).
           by apply elem_of_nil in Hin.
Defined.

(** C4 as worded fails when the [redirect_url] does not parse: the pass is
    degraded, the validity flag is not set and the error is the message of
    [new URL]. *)
Lemma C4_counterexample :
  ¬ failed_fetch_gives_invalid_key Reference.browser
      (Reference.world Reference.unauthorized) Reference.unparseable Reference.idle.
Proof.
  intros H.
  destruct (H Reference.unauthorized) as (info & Hp & Hv & _ & He).
  - vm_compute. reflexivity.
  - reflexivity.
  - apply produced_Some in Hp as [_ ->]. vm_compute in Hv. discriminate.
Qed.

(** C4, restated for a pass that is not degraded. When the validation
    call fails (the network fails or the response is not 2xx) and the
    [redirect_url], if one is supplied, parses, the pass still completes:
    the validity flag is false, there is no [ApiKeyInfo] (the value stored
    is [null]), and the error is the invalid-key message when the three
    reserved parameters are supplied with non-empty values. *)
Theorem C4_failed_validation B O p s r :
  fetched B O p s = [r] → fetch_failed r → parses B p →
  (processDebugInfo B O p s).1 = inr tt
  ∧ ∃ info,
      produced B O p s = Some info
      ∧ DebugInfo.api_key_valid info = Some (JBool false)
      ∧ DebugInfo.api_key_info info = Some JNull
      ∧ (Supplied p "campaign_id" → Supplied p "redirect_url" → Supplied p "api_key" →
         DebugInfo.error info = Some "API key is invalid or inactive").
Proof.
  intros Hf Hfail Hp.
  assert (is_idle p = false) as Hidle.
  { rewrite fetched_run in Hf. by destruct (is_idle p). }
  assert (pass_key B O p s = (JNull, JBool false)) as Hkey
    by (rewrite (pass_key_fetched B O p s Hidle), Hf; by apply checked_failed).
  destruct (parses_pass_url B O p s Hp) as [final_url Hurl].
  split; [rewrite processDebugInfo_run; by rewrite Hidle|].
  exists (pass_info B O p s). rewrite produced_run, Hidle.
  rewrite (pass_valid _ _ _ _ _ Hurl), (pass_key_info _ _ _ _ _ Hurl),
    (pass_error _ _ _ _ _ Hurl), Hkey.
  repeat split. rewrite !Supplied_truthy. by intros -> -> ->.
Qed.

Lemma C4_witness :
  ∃ info,
    produced Reference.browser (Reference.world Reference.unauthorized)
      Reference.scenario Reference.idle = Some info
    ∧ DebugInfo.api_key_valid info = Some (JBool false)
    ∧ DebugInfo.api_key_info info = Some JNull
    ∧ DebugInfo.error info = Some "API key is invalid or inactive".
Proof.
  destruct (C4_failed_validation Reference.browser (Reference.world Reference.unauthorized)
              Reference.scenario Reference.idle Reference.unauthorized)
    as (_ & info & Hp & Hv & Hi & He).
  - vm_compute. reflexivity.
  - reflexivity.
  - apply parses_example. vm_compute. reflexivity.
  - exists info. repeat (split; [assumption|]).
    apply He; eexists; (split; [vm_compute; reflexivity|discriminate]).
Defined.

(** C5 as worded fails for what the validation call throws: when the
    network fails, the inner handler swallows the error, and the pass
    produces a [DebugInfo] that is not degraded and reports an invalid
    key. *)
Lemma C5_counterexample :
  ¬ every_error_degrades Reference.browser (Reference.world Reference.unreachable)
      Reference.scenario Reference.idle.
Proof.
  intros [_ H]. destruct (H "Failed to fetch") as (info & Hp & _ & _ & He).
  - left. vm_compute. reflexivity.
  - apply produced_Some in Hp as [_ ->]. vm_compute in He. discriminate.
Qed.

(** C5, restated with the two handlers told apart. No exception leaves
    [processDebugInfo]. When [new URL] rejects the [redirect_url] with
    some message, the pass produces the degraded [DebugInfo]: the six
    fields of the payload are empty strings (and it has no other field),
    the final URL is empty and the error is that message. The same holds
    for whatever leaves the body of the outer [try]: the handler stores
    the message of an [Error], or the text [Unknown error] for another
    value, and clears [isLoading]. What is thrown while the validation
    call is made and read does not leave that body: unless [new URL]
    fails afterwards the pass is not degraded, the validity flag is false,
    the payload is assembled, and the error is that of the ordered check,
    not the message of what was thrown. *)
Theorem C5_degraded B O p s :
  (processDebugInfo B O p s).1 = inr tt
  ∧ (∀ r message,
       p !! "redirect_url" = Some r → r ≠ "" → URL_new B r = inl message →
       ∃ info,
         produced B O p s = Some info
         ∧ debugInfo (processDebugInfo B O p s).2 = Some info
         ∧ (∀ k, k ∈ ["id"; "created_at"; "campaign_id"; "api_key_id";
                      "redirect_url"; "final_url"] →
                 payload info k = Some (JStr ""))
         ∧ (∀ k v, payload info k = Some v → v = JStr "")
         ∧ DebugInfo.final_url info = ""
         ∧ DebugInfo.error info = Some message)
  ∧ (∀ (body : M unit) e s0 s1,
       body s0 = (inl e, s1) →
       ∃ s2 info,
         try_finally (try_catch body (on_error O)) (setIsLoading false) s0 = (inr tt, s2)
         ∧ debugInfo s2 = Some info
         ∧ isLoading s2 = false
         ∧ (∀ k v, payload info k = Some v → v = JStr "")
         ∧ DebugInfo.final_url info = ""
         ∧ DebugInfo.error info =
             Some (match e with
                   | ErrorObj message => message
                   | NotAnError => "Unknown error"
                   end))
  ∧ (∀ r, fetched B O p s = [r] → validation_throws r → parses B p →
       ∃ info,
         produced B O p s = Some info
         ∧ DebugInfo.api_key_valid info = Some (JBool false)
         ∧ payload info "campaign_id"
           = Some (JStr (or_default (p !! "campaign_id") "missing"))
         ∧ (Missing p "redirect_url" →
            DebugInfo.error info = Some "Missing required parameter: redirect_url")
         ∧ (Supplied p "redirect_url" → Missing p "campaign_id" →
            DebugInfo.error info = Some "Missing required parameter: campaign_id")
         ∧ (Supplied p "redirect_url" → Supplied p "campaign_id" →
            DebugInfo.error info = Some "API key is invalid or inactive")).
Proof.
  assert (∀ m t k v, payload (degraded m t) k = Some v → v = JStr "") as Hempty
    by (intros m t k v; apply degraded_strings).
  split; [|split; [|split]].
  - rewrite processDebugInfo_run. by destruct (is_idle p).
  - intros r message Hr Hne Hurl.
    assert (truthy (p !! "redirect_url") = true) as Ht
      by (apply truthy_true; eauto).
    assert (is_idle p = false) as Hidle
      by (apply is_idle_false; right; left; by apply Supplied_truthy).
    assert (pass_url B O p s = inl message) as Hpass.
    { unfold pass_url. rewrite Ht, Hr. destruct r; [done|]. cbn. by rewrite Hurl. }
    exists (pass_info B O p s).
    rewrite produced_run, processDebugInfo_run, Hidle.
    rewrite (pass_info_degraded _ _ _ _ _ Hpass).
    repeat split; [|by apply Hempty].
    intros k Hk. unfold payload, degraded. cbn [DebugInfo.trace_payload].
    repeat (apply elem_of_cons in Hk as [->|Hk]; [done|]).
    by apply elem_of_nil in Hk.
  - intros body e s0 s1 Hbody.
    unfold try_finally, try_catch. rewrite Hbody.
    unfold on_error, mbind, M_bind, bind, now, setDebugInfo, setIsLoading. cbn.
    eexists _, _. repeat split. by apply Hempty.
  - intros r Hf Hthrows Hp.
    assert (is_idle p = false) as Hidle.
    { rewrite fetched_run in Hf. by destruct (is_idle p). }
    assert (truthy (p !! "api_key") = true) as Ha.
    { rewrite fetched_run, Hidle in Hf. unfold pass_fetch in Hf.
      by destruct (truthy (p !! "api_key")). }
    assert ((pass_key B O p s).2 = JBool false) as Hkey.
    { rewrite (pass_key_fetched B O p s Hidle), Hf. by apply checked_throws. }
    destruct (parses_pass_url B O p s Hp) as [final_url Hurl].
    exists (pass_info B O p s). rewrite produced_run, Hidle. unfold payload.
    rewrite (pass_valid _ _ _ _ _ Hurl), (pass_error _ _ _ _ _ Hurl),
      (pass_payload _ _ _ _ _ Hurl), Hkey, Ha.
    rewrite !Missing_truthy, !Supplied_truthy.
    split; [done|]. split; [done|]. split.
    + rewrite make_trace_payload_reserved; [done|by left|].
      rewrite extraParams_lookup. case_decide; tauto.
    + split; [by intros ->|]. split; [by intros -> ->|by intros -> ->].
Qed.

Lemma C5_witness :
  (∃ info,
     produced Reference.browser (Reference.world Reference.unauthorized)
       Reference.unparseable Reference.idle = Some info
     ∧ payload info "id" = Some (JStr "")
     ∧ DebugInfo.final_url info = ""
     ∧ DebugInfo.error info = Some "Invalid URL")
  ∧ (∃ info,
       produced Reference.browser (Reference.world Reference.unreachable)
         Reference.scenario Reference.idle = Some info
       ∧ DebugInfo.api_key_valid info = Some (JBool false)
       ∧ DebugInfo.error info = Some "API key is invalid or inactive").
Proof.
  split.
  - destruct (proj1 (proj2
                (C5_degraded Reference.browser (Reference.world Reference.unauthorized)
                   Reference.unparseable Reference.idle)) "not a url" "Invalid URL")
      as (info & Hp & _ & Hfields & _ & Hfu & He).
    + vm_compute. reflexivity.
    + discriminate.
    + vm_compute. reflexivity.
    + exists info. split; [exact Hp|]. split; [|by split].
      apply Hfields, list_elem_of_here.
  - destruct (proj2 (proj2 (proj2
                (C5_degraded Reference.browser (Reference.world Reference.unreachable)
                   Reference.scenario Reference.idle))) Reference.unreachable)
      as (info & Hp & Hv & _ & _ & _ & He).
    + vm_compute. reflexivity.
    + exact I.
    + apply parses_example. vm_compute. reflexivity.
    + exists info. split; [exact Hp|]. split; [exact Hv|].
      apply He; eexists; (split; [vm_compute; reflexivity|discriminate]).
Defined.

(** C6 as worded fails whenever a [redirect_url] is supplied: the final URL
    carries the identifier of the pass. *)
Lemma C6_counterexample :
  ¬ reruns_differ_in_fresh_fields_only Reference.browser
      (Reference.oracle Reference.active_key Reference.uuid1 Reference.time1)
      (Reference.oracle Reference.active_key Reference.uuid2 Reference.time2)
      Reference.only_redirect_url Reference.idle Reference.idle.
Proof.
  intros H.
  destruct (H eq_refl
    (pass_info Reference.browser
       (Reference.oracle Reference.active_key Reference.uuid1 Reference.time1)
       Reference.only_redirect_url Reference.idle)
    (pass_info Reference.browser
       (Reference.oracle Reference.active_key Reference.uuid2 Reference.time2)
       Reference.only_redirect_url Reference.idle)) as (_ & Hfu & _).
  - vm_compute. reflexivity.
  - vm_compute. reflexivity.
  - vm_compute in Hfu. discriminate.
Qed.

(** C6, restated with the final URL among the fresh fields. Two passes
    over the same parameters that get the same answer from the validation
    service produce [DebugInfo]s with the same error, validity flag and
    key information, and with payloads that agree on every key other than
    [id], [created_at] and [final_url]. The final URL carries the
    identifier of the pass: the two final URLs (and the [final_url] of the
    payloads) are the same when [redirect_url] is missing or the two
    passes drew the same identifier. *)
Theorem C6_reruns B O1 O2 p s1 s2 i1 i2 :
  fetched B O1 p s1 = fetched B O2 p s2 →
  produced B O1 p s1 = Some i1 →
  produced B O2 p s2 = Some i2 →
  same_payload_except ["id"; "created_at"; "final_url"] i1 i2
  ∧ same_verdict i1 i2
  ∧ (Missing p "redirect_url" ∨ generated B O1 p s1 = generated B O2 p s2 →
     DebugInfo.final_url i1 = DebugInfo.final_url i2
     ∧ payload i1 "final_url" = payload i2 "final_url").
Proof.
  intros Hf [Hidle ->]%produced_Some [_ ->]%produced_Some.
  rewrite !fetched_run, !generated_run, Hidle in *.
  assert (pass_key B O1 p s1 = pass_key B O2 p s2) as Hkey.
  { unfold pass_key.
    destruct (pass_fetch B O1 p s1), (pass_fetch B O2 p s2); by simplify_eq/=. }
  unfold same_payload_except, same_verdict, payload.
  destruct (pass_url B O1 p s1) as [m1|fu1] eqn:Hu1;
    destruct (pass_url B O2 p s2) as [m2|fu2] eqn:Hu2.
  - assert (m1 = m2) as <-.
    { unfold pass_url in Hu1, Hu2. destruct (truthy (p !! "redirect_url")); [|done].
      destruct (URL_new B _); by simplify_eq. }
    by rewrite (pass_info_degraded _ _ _ _ _ Hu1), (pass_info_degraded _ _ _ _ _ Hu2).
  - unfold pass_url in Hu1, Hu2. destruct (truthy (p !! "redirect_url")); [|done].
    destruct (URL_new B _); by simplify_eq.
  - unfold pass_url in Hu1, Hu2. destruct (truthy (p !! "redirect_url")); [|done].
    destruct (URL_new B _); by simplify_eq.
  - rewrite (pass_error _ _ _ _ _ Hu1), (pass_error _ _ _ _ _ Hu2),
      (pass_valid _ _ _ _ _ Hu1), (pass_valid _ _ _ _ _ Hu2),
      (pass_key_info _ _ _ _ _ Hu1), (pass_key_info _ _ _ _ _ Hu2),
      (pass_final_url _ _ _ _ _ Hu1), (pass_final_url _ _ _ _ _ Hu2),
      (pass_payload _ _ _ _ _ Hu1), (pass_payload _ _ _ _ _ Hu2), Hkey.
    split; [|split; [done|]].
    + intros k Hk. by apply make_trace_payload_agree.
    + intros Hsame. assert (fu1 = fu2) as <-.
      { unfold pass_url in Hu1, Hu2.
        destruct Hsame as [Hm%Missing_truthy|[= Hid]].
        - rewrite Hm in Hu1, Hu2. congruence.
        - rewrite Hid in Hu1. congruence. }
      by rewrite !make_trace_payload_final_url.
Qed.

Lemma C6_witness :
  ∃ i1 i2,
    produced Reference.browser
      (Reference.oracle Reference.active_key Reference.uuid1 Reference.time1)
      Reference.scenario Reference.idle = Some i1
    ∧ produced Reference.browser
        (Reference.oracle Reference.active_key Reference.uuid2 Reference.time2)
        Reference.scenario Reference.idle = Some i2
    ∧ same_payload_except ["id"; "created_at"; "final_url"] i1 i2
    ∧ same_verdict i1 i2.
Proof.
  exists
    (pass_info Reference.browser
       (Reference.oracle Reference.active_key Reference.uuid1 Reference.time1)
       Reference.scenario Reference.idle),
    (pass_info Reference.browser
       (Reference.oracle Reference.active_key Reference.uuid2 Reference.time2)
       Reference.scenario Reference.idle).
  split; [vm_compute; reflexivity|]. split; [vm_compute; reflexivity|].
  refine (let H := C6_reruns Reference.browser
            (Reference.oracle Reference.active_key Reference.uuid1 Reference.time1)
            (Reference.oracle Reference.active_key Reference.uuid2 Reference.time2)
            Reference.scenario Reference.idle Reference.idle _ _ _ _ _
          in conj (proj1 H) (proj1 (proj2 H))).
  - vm_compute. reflexivity.
  - vm_compute. reflexivity.
  - vm_compute. reflexivity.
Defined.

(** C7. With none of the three reserved keys in the map the pass returns
    at once: the state is left as it is, nothing is appended to the log
    (no validation call, no identifier, no state update) and no
    [DebugInfo] is produced. *)
Theorem C7_idle_without_reserved_keys B O p s :
  p !! "campaign_id" = None → p !! "redirect_url" = None → p !! "api_key" = None →
  processDebugInfo B O p s = (inr tt, s)
  ∧ events B O p s = []
  ∧ produced B O p s = None
  ∧ fetched B O p s = []
  ∧ generated B O p s = [].
Proof.
  intros Hc Hr Hk.
  assert (is_idle p = true) as Hidle by (unfold is_idle; by rewrite Hc, Hr, Hk).
  rewrite processDebugInfo_run, events_run, produced_run, fetched_run, generated_run.
  by rewrite Hidle.
Qed.

Lemma C7_witness :
  processDebugInfo Reference.browser (Reference.world Reference.active_key)
    {[ "utm_source" := "test" ]} Reference.idle = (inr tt, Reference.idle)
  ∧ events Reference.browser (Reference.world Reference.active_key)
      {[ "utm_source" := "test" ]} Reference.idle = [].
Proof.
  refine (let H := C7_idle_without_reserved_keys Reference.browser
            (Reference.world Reference.active_key) {[ "utm_source" := "test" ]}
            Reference.idle _ _ _
          in conj (proj1 H) (proj1 (proj2 H)));
    vm_compute; reflexivity.
Defined.

(** C8 as worded fails when the only reserved key of the map has the empty
    string as its value: the pass is idle and produces nothing. *)
Lemma C8_counterexample :
  ¬ reports_missing_redirect_url Reference.browser
      (Reference.world Reference.active_key) {[ "campaign_id" := "" ]} Reference.idle.
Proof.
  intros H. destruct H as (info & Hp & _).
  - vm_compute. reflexivity.
  - left. exists "". vm_compute. reflexivity.
  - vm_compute in Hp. discriminate.
Qed.

(** C8, restated for non-empty values. When [redirect_url] is missing and
    another reserved parameter is supplied with a non-empty value, the
    pass produces a [DebugInfo] whose final URL is empty and whose error
    reports the missing [redirect_url]. *)
Theorem C8_missing_redirect_url B O p s :
  Missing p "redirect_url" →
  Supplied p "campaign_id" ∨ Supplied p "api_key" →
  ∃ info,
    produced B O p s = Some info
    ∧ debugInfo (processDebugInfo B O p s).2 = Some info
    ∧ DebugInfo.final_url info = ""
    ∧ DebugInfo.error info = Some "Missing required parameter: redirect_url".
Proof.
  intros Hr Hsome.
  assert (is_idle p = false) as Hidle by (apply is_idle_false; tauto).
  pose proof (pass_url_missing B O p s Hr) as Hurl.
  exists (pass_info B O p s).
  rewrite produced_run, processDebugInfo_run, Hidle.
  rewrite (pass_final_url _ _ _ _ _ Hurl), (pass_error _ _ _ _ _ Hurl).
  apply Missing_truthy in Hr. by rewrite Hr.
Qed.

Lemma C8_witness :
  ∃ info,
    produced Reference.browser (Reference.world Reference.active_key)
      {[ "campaign_id" := "c1" ]} Reference.idle = Some info
    ∧ DebugInfo.final_url info = ""
    ∧ DebugInfo.error info = Some "Missing required parameter: redirect_url".
Proof.
  destruct (C8_missing_redirect_url Reference.browser
              (Reference.world Reference.active_key) {[ "campaign_id" := "c1" ]}
              Reference.idle)
    as (info & Hp & _ & Hfu & He).
  - left. vm_compute. reflexivity.
  - left. exists "c1". split; [vm_compute; reflexivity|discriminate].
  - by exists info.
Defined.

(** C9 as worded fails in two ways. An extra parameter called [id]
    replaces the identifier of the pass in the payload; and a validation
    answer whose [id] is an object puts a nested structure into the
    payload, under [api_key_id]. *)
Lemma C9_counterexample :
  ¬ id_is_trace_id Reference.browser (Reference.world Reference.active_key)
      Reference.extra_id Reference.idle
  ∧ ¬ id_is_trace_id Reference.browser (Reference.world Reference.nested_id)
        Reference.scenario Reference.idle.
Proof.
  split; intros H.
  - destruct (H (pass_info Reference.browser (Reference.world Reference.active_key)
                   Reference.extra_id Reference.idle))
      as (trace_id & Hg & Hid & _).
    + vm_compute. reflexivity.
    + vm_compute in Hg. injection Hg as <-. vm_compute in Hid. discriminate.
  - destruct (H (pass_info Reference.browser (Reference.world Reference.nested_id)
                   Reference.scenario Reference.idle))
      as (trace_id & _ & _ & Hprimitive).
    + vm_compute. reflexivity.
    + apply (Hprimitive "api_key_id" (JObj [("n", JNum 7)])).
      vm_compute. reflexivity.
Qed.

(** C9, restated with the merge order of the payload. A pass that
    produces a [DebugInfo] draws exactly one identifier, at a call of the
    generator that no later pass shares: the identifiers of two passes
    differ whenever the generator does not repeat itself. Unless the pass
    is degraded, the payload's [id] is that identifier when no extra
    parameter is called [id], and the value of that extra parameter when
    there is one. Every value of the payload is a string, except that
    [api_key_id] may hold the [id] of the body of a 2xx answer as it came,
    when that is truthy; so every value is a string, a number, a boolean
    or [null], and none is a nested structure, provided the [id] that the
    service sends is not one. *)
Theorem C9_payload_id B O p s info :
  produced B O p s = Some info →
  ∃ trace_id,
    generated B O p s = [trace_id]
    ∧ (parses B p →
       payload info "id" = Some (JStr (default trace_id (extraParams p !! "id"))))
    ∧ (∀ p' s' trace_id',
         (length (log (processDebugInfo B O p s).2) ≤ length (log s'))%nat →
         generated B O p' s' = [trace_id'] →
         (∀ m n, randomUUID_at O m = randomUUID_at O n → m = n) →
         trace_id' ≠ trace_id)
    ∧ (∀ k v, payload info k = Some v →
         is_string v
         ∨ k = "api_key_id"
           ∧ ∃ data, fetched B O p s = [Responds true (inr data)]
                     ∧ v = member data "id" ∧ ToBoolean v = true)
    ∧ ((∀ data, fetched B O p s = [Responds true (inr data)] →
                is_primitive (member data "id")) →
       ∀ k v, payload info k = Some v → is_primitive v).
Proof.
  intros [Hidle ->]%produced_Some.
  exists (pass_trace_id O p s). rewrite generated_run, Hidle.
  pose proof (λ k v, pass_payload_values B O p s k v Hidle) as Hvalues.
  split; [done|]. split; [|split; [|split; [exact Hvalues|]]].
  - intros Hp. destruct (parses_pass_url B O p s Hp) as [final_url Hurl].
    unfold payload. rewrite (pass_payload _ _ _ _ _ Hurl).
    rewrite make_trace_payload_fixed.
    + by destruct (extraParams p !! "id").
    + cbn. intros H. repeat (apply elem_of_cons in H as [?|H]; [done|]).
      by apply elem_of_nil in H.
  - intros p' s' trace_id' Hlater Hg Hinj Heq. rewrite generated_run in Hg.
    destruct (is_idle p') eqn:Hidle'; [done|]. injection Hg as <-.
    apply Hinj in Heq.
    pose proof (pass_tick_bounds B O p s Hidle) as [_ Hlt].
    pose proof (pass_tick_bounds B O p' s' Hidle') as [Hgt _]. lia.
  - intros Hid k v [[x ->]|(-> & data & Hf & -> & _)]%Hvalues; [done|].
    by apply Hid.
Qed.

Lemma C9_witness :
  ∃ info,
    produced Reference.browser (Reference.counting Reference.active_key)
      Reference.extra_id Reference.idle = Some info
    ∧ generated Reference.browser (Reference.counting Reference.active_key)
        Reference.extra_id Reference.idle = ["1"]
    ∧ payload info "id" = Some (JStr "mine")
    ∧ ∀ p' s' trace_id',
        (6 ≤ length (log s'))%nat →
        generated Reference.browser (Reference.counting Reference.active_key) p' s'
        = [trace_id'] →
        trace_id' ≠ "1".
Proof.
  exists (pass_info Reference.browser (Reference.counting Reference.active_key)
            Reference.extra_id Reference.idle).
  split; [vm_compute; reflexivity|].
  destruct (C9_payload_id Reference.browser (Reference.counting Reference.active_key)
              Reference.extra_id Reference.idle
              (pass_info Reference.browser (Reference.counting Reference.active_key)
                 Reference.extra_id Reference.idle))
    as (trace_id & Hg & Hid & Hunique & _).
  - vm_compute. reflexivity.
  - vm_compute in Hg. injection Hg as <-.
    split; [vm_compute; reflexivity|]. split.
    + apply Hid, parses_without. vm_compute. reflexivity.
    + intros p' s' trace_id' Hlater Hg'.
      apply (Hunique p' s' trace_id'); [vm_compute; exact Hlater|exact Hg'|].
      intros m n. apply (inj pretty).
Defined.

(** C10 as worded fails in two ways. An empty [api_key] in a map without
    [redirect_url] is reported by the message for [redirect_url], which
    the ordered check finds first; and with a [redirect_url] that does not
    parse the pass is degraded, so that an empty [campaign_id] is recorded
    as the empty string and not reported at all. *)
Lemma C10_counterexample :
  ¬ empty_reserved_is_reported Reference.browser (Reference.world Reference.active_key)
      Reference.empty_api_key Reference.idle
  ∧ ¬ empty_reserved_is_reported Reference.browser
        (Reference.world Reference.active_key)
        Reference.empty_campaign_id_unparseable Reference.idle.
Proof.
  assert (∀ k, k ∈ ["campaign_id"; "api_key"] → k ∈ reserved) as Hreserved.
  { intros k Hk. unfold reserved.
    repeat (apply elem_of_cons in Hk as [->|Hk];
      [repeat (first [apply list_elem_of_here | apply list_elem_of_further])|]).
    by apply elem_of_nil in Hk. }
  split; intros H.
  - destruct (H "api_key") as [_ Hinfo].
    + apply Hreserved, list_elem_of_further, list_elem_of_here.
    + vm_compute. reflexivity.
    + destruct (Hinfo (pass_info Reference.browser (Reference.world Reference.active_key)
                         Reference.empty_api_key Reference.idle)) as [He _].
      * vm_compute. reflexivity.
      * vm_compute in He. discriminate.
  - destruct (H "campaign_id") as [_ Hinfo].
    + apply Hreserved, list_elem_of_here.
    + vm_compute. reflexivity.
    + destruct (Hinfo (pass_info Reference.browser (Reference.world Reference.active_key)
                         Reference.empty_campaign_id_unparseable Reference.idle))
        as [_ Hpayload].
      * vm_compute. reflexivity.
      * specialize (Hpayload ltac:(discriminate)). vm_compute in Hpayload.
        discriminate.
Qed.

(** C10, restated with the order of the checks and for a pass that is not
    degraded. A reserved parameter whose value is the empty string is
    treated as an absent one: the pass is the pass over the map without
    that key. In particular, a map in which every reserved parameter is
    absent or empty produces nothing. An empty [redirect_url] is reported
    missing and the payload holds the text [missing] for it. In a pass
    that is not degraded, an empty [api_key] or [campaign_id] is reported
    missing by the ordered check (its message is the error once the
    parameters checked before it are supplied), and the payload holds the
    text [missing] for an empty [campaign_id]. *)
Theorem C10_empty_is_absent B O p s k :
  k ∈ ["campaign_id"; "redirect_url"; "api_key"] →
  p !! k = Some "" →
  processDebugInfo B O p s = processDebugInfo B O (delete k p) s
  ∧ (Missing p "campaign_id" → Missing p "redirect_url" → Missing p "api_key" →
     processDebugInfo B O p s = (inr tt, s) ∧ produced B O p s = None)
  ∧ (∀ info, produced B O p s = Some info →
       (k = "redirect_url" →
          DebugInfo.error info = Some "Missing required parameter: redirect_url"
          ∧ payload info "redirect_url" = Some (JStr "missing"))
       ∧ (parses B p → k = "api_key" → Supplied p "redirect_url" →
          DebugInfo.error info = Some "Missing required parameter: api_key")
       ∧ (parses B p → k = "campaign_id" →
          payload info "campaign_id" = Some (JStr "missing")
          ∧ (Supplied p "redirect_url" → Supplied p "api_key" →
             DebugInfo.error info = Some "Missing required parameter: campaign_id"))).
Proof.
  intros Hk Hempty. split; [|split].
  - unfold processDebugInfo. rewrite (extraParams_delete p k Hk).
    repeat (apply elem_of_cons in Hk as [->|Hk];
      [rewrite lookup_delete_eq, !lookup_delete_ne, Hempty by done; reflexivity|]).
    by apply elem_of_nil in Hk.
  - intros Hc Hr Ha.
    assert (is_idle p = true) as Hidle by (by apply is_idle_true).
    by rewrite processDebugInfo_run, produced_run, Hidle.
  - intros info [Hidle ->]%produced_Some.
    assert (∀ final_url c, pass_url B O p s = inr final_url →
      c = "campaign_id" ∨ c = "redirect_url" → p !! c = Some "" →
      payload (pass_info B O p s) c = Some (JStr "missing")) as Hmissing.
    { intros final_url c Hurl Hc Hpc. unfold payload.
      rewrite (pass_payload _ _ _ _ _ Hurl), make_trace_payload_reserved; [|done|].
      - destruct Hc as [-> | ->]; by rewrite Hpc.
      - rewrite extraParams_lookup. case_decide; tauto. }
    rewrite !Supplied_truthy.
    split; [|split].
    + intros ->.
      assert (pass_url B O p s = inr "") as Hurl by (apply pass_url_missing; by right).
      rewrite (pass_error _ _ _ _ _ Hurl), Hempty.
      split; [done|]. apply (Hmissing _ _ Hurl); [by right|done].
    + intros Hp -> Hr.
      destruct (parses_pass_url B O p s Hp) as [final_url Hurl].
      by rewrite (pass_error _ _ _ _ _ Hurl), Hr, Hempty.
    + intros Hp ->.
      destruct (parses_pass_url B O p s Hp) as [final_url Hurl].
      split; [apply (Hmissing _ _ Hurl); [by left|done]|].
      intros Hr Ha. by rewrite (pass_error _ _ _ _ _ Hurl), Hr, Ha, Hempty.
Qed.

Lemma C10_witness :
  processDebugInfo Reference.browser (Reference.world Reference.active_key)
    Reference.empty_campaign_id Reference.idle
  = processDebugInfo Reference.browser (Reference.world Reference.active_key)
      (delete "campaign_id" Reference.empty_campaign_id) Reference.idle
  ∧ ∃ info,
      produced Reference.browser (Reference.world Reference.active_key)
        Reference.empty_campaign_id Reference.idle = Some info
      ∧ payload info "campaign_id" = Some (JStr "missing")
      ∧ DebugInfo.error info = Some "Missing required parameter: campaign_id".
Proof.
  destruct (C10_empty_is_absent Reference.browser (Reference.world Reference.active_key)
              Reference.empty_campaign_id Reference.idle "campaign_id")
    as (Heq & _ & H).
  - apply list_elem_of_here.
  - vm_compute. reflexivity.
  - split; [exact Heq|].
    exists (pass_info Reference.browser (Reference.world Reference.active_key)
              Reference.empty_campaign_id Reference.idle).
    split; [vm_compute; reflexivity|].
    destruct (H (pass_info Reference.browser (Reference.world Reference.active_key)
                   Reference.empty_campaign_id Reference.idle)) as (_ & _ & Hc).
    + vm_compute. reflexivity.
    + assert (parses Reference.browser Reference.empty_campaign_id) as Hparses
        by (apply parses_example; vm_compute; reflexivity).
      destruct (Hc Hparses eq_refl) as [Hm He]. split; [exact Hm|].
      apply He; eexists; (split; [vm_compute; reflexivity|discriminate]).
Defined.

(** * The rest of the component *)

(** ** Lemmas *)

Lemma readParams_snoc entries kv :
  readParams (entries ++ [kv])%list =
    if decide (kv.1 = "__proto__") then readParams entries
    else <[kv.1 := kv.2]> (readParams entries).
Proof. unfold readParams. by rewrite foldl_snoc. Qed.

Lemma named_snoc k entries kv :
  URL.named k (entries ++ [kv])%list =
    if decide (kv.1 = k) then (URL.named k entries ++ [kv])%list
    else URL.named k entries.
Proof.
  unfold URL.named. rewrite filter_app.
  change (filter (λ kv0, kv0.1 = k) [kv])
    with (if decide (kv.1 = k) then [kv] else []).
  case_decide; [done|]. by rewrite app_nil_r.
Qed.

Lemma hasParams_truthy p :
  truthy (hasParams p) =
    truthy (p !! "campaign_id") || truthy (p !! "redirect_url") || truthy (p !! "api_key").
Proof.
  unfold hasParams, js_or.
  destruct (truthy (p !! "campaign_id")) eqn:Hc; cbn.
  - by rewrite Hc.
  - destruct (truthy (p !! "redirect_url")) eqn:Hr; cbn; [by rewrite Hr|done].
Qed.

Lemma hasParams_is_idle p : truthy (hasParams p) = negb (is_idle p).
Proof.
  rewrite hasParams_truthy. unfold is_idle.
  by destruct (truthy (p !! "campaign_id")), (truthy (p !! "redirect_url")),
    (truthy (p !! "api_key")).
Qed.

Lemma is_idle_empty : is_idle ∅ = true.
Proof. reflexivity. Qed.

(** ** The parameter reader and the page load *)

(** X1. The object read from the query string maps a name to the value of
    the last pair of that name, and has no key for a name without a pair;
    the name [__proto__] never becomes a key. *)
Theorem readParams_last_wins entries k :
  readParams entries !! k =
    if decide (k = "__proto__") then None
    else snd <$> last (URL.named k entries).
Proof.
  induction entries as [|kv entries IH] using rev_ind.
  - cbn. by case_decide.
  - rewrite readParams_snoc, named_snoc.
    destruct (decide (kv.1 = "__proto__")) as [Hp|Hp].
    + rewrite IH. case_decide as Hk; [done|].
      rewrite decide_False by congruence. done.
    + destruct (decide (kv.1 = k)) as [<-|Hne].
      * rewrite lookup_insert_eq, decide_False by done. by rewrite last_snoc.
      * by rewrite lookup_insert_ne.
Qed.

(** X2. Loading the page runs the synthesizer twice, and the first run, on
    the empty object, does nothing: the effects of the load are those of
    one pass over the parameters read, the spinner is off at the end and
    the result panel shows what that pass produced. *)
Theorem page_load_is_one_pass B O entries :
  (page_load B O entries initial).1 = inr tt
  ∧ log (page_load B O entries initial).2 = events B O (readParams entries) initial
  ∧ shows_loading (page_load B O entries initial).2 = false
  ∧ shown_debugInfo (readParams entries) (page_load B O entries initial).2
    = produced B O (readParams entries) initial.
Proof.
  unfold page_load, mbind, M_bind, bind.
  rewrite (processDebugInfo_run B O ∅), is_idle_empty.
  unfold events, produced, events, shown_debugInfo, shows_loading.
  rewrite (processDebugInfo_run B O (readParams entries)), hasParams_is_idle.
  destruct (is_idle (readParams entries)); cbn; [done|].
  repeat split. unfold pass_events. by destruct (pass_fetch _ _ _ _).
Qed.

(** X3. The instructions are shown exactly when no reserved name has a
    non-empty last value in the query string. *)
Theorem instructions_iff_no_reserved_value entries :
  shows_instructions (readParams entries) = true ↔
  ∀ k, k ∈ ["campaign_id"; "redirect_url"; "api_key"] →
       truthy (snd <$> last (URL.named k entries)) = false.
Proof.
  unfold shows_instructions. rewrite hasParams_truthy, negb_true_iff, !orb_false_iff.
  rewrite !readParams_last_wins, !decide_False by done. split.
  - intros [[Hc Hr] Ha] k Hk.
    repeat (apply elem_of_cons in Hk as [->|Hk]; [done|]). by apply elem_of_nil in Hk.
  - intros H. repeat split; apply H;
      repeat (first [apply list_elem_of_here | apply list_elem_of_further]).
Qed.

(** ** The panels *)

(** X4. The instructions are shown exactly when the pass over the same
    parameters does nothing at all. *)
Theorem instructions_iff_idle B O p s :
  (shows_instructions p = true → processDebugInfo B O p s = (inr tt, s))
  ∧ (shows_instructions p = false → ∃ info, produced B O p s = Some info).
Proof.
  unfold shows_instructions. rewrite hasParams_is_idle, negb_involutive.
  rewrite processDebugInfo_run, produced_run.
  split; intros ->; [done|by eexists].
Qed.

(** X5. After a pass started with the spinner off, the spinner is off, the
    result panel shows the [DebugInfo] the pass produced, and either the
    instructions or the result panel is on the page, never both: a
    [DebugInfo] left from earlier parameters is not displayed. *)
Theorem view_after_pass B O p s :
  isLoading s = false →
  shows_loading (processDebugInfo B O p s).2 = false
  ∧ shown_debugInfo p (processDebugInfo B O p s).2 = produced B O p s
  ∧ shows_instructions p
    = match shown_debugInfo p (processDebugInfo B O p s).2 with
      | Some _ => false
      | None => true
      end.
Proof.
  intros Hs. unfold shows_loading, shown_debugInfo, shows_instructions.
  rewrite processDebugInfo_run, produced_run, hasParams_is_idle.
  destruct (is_idle p); cbn; [|done].
  rewrite Hs. cbn. by destruct (debugInfo s).
Qed.

(** ** Lemmas on the result of a pass *)

Lemma pass_url_failed B O p s r message :
  p !! "redirect_url" = Some r → r ≠ "" → URL_new B r = inl message →
  is_idle p = false ∧ pass_url B O p s = inl message.
Proof.
  intros Hr Hne Hurl. split.
  - apply is_idle_false. right; left. by exists r.
  - unfold pass_url. rewrite Hr. destruct r; [done|]. cbn. by rewrite Hurl.
Qed.

Lemma error_messages_truthy (r a c : option string) (valid : bool) :
  truthy (if negb (truthy r) then Some "Missing required parameter: redirect_url"
          else if negb (truthy a) then Some "Missing required parameter: api_key"
          else if negb (truthy c) then Some "Missing required parameter: campaign_id"
          else if negb valid then Some "API key is invalid or inactive"
          else None)
  = negb (truthy r && truthy a && truthy c && valid).
Proof. by destruct (truthy r), (truthy a), (truthy c), valid. Qed.

Lemma key_status_None info :
  key_status info = None ↔ read (DebugInfo.api_key_valid info) = JUndefined.
Proof.
  unfold key_status.
  destruct (read (DebugInfo.api_key_valid info)) as [| |[]|n|x|l|l]; cbn;
    split; try done; by case_match.
Qed.

Lemma key_status_valid info :
  key_status info = Some ValidAndActive ↔
  ToBoolean (read (DebugInfo.api_key_valid info)) = true.
Proof.
  unfold key_status.
  destruct (read (DebugInfo.api_key_valid info)) as [| |[]|n|x|l|l]; cbn;
    split; try done; by case_match.
Qed.

Lemma substring_prefix n (t : string) :
  ∃ rest, t = substring 0 n t ++ rest
          ∧ String.length (substring 0 n t) = min n (String.length t).
Proof.
  revert t. induction n as [|n IH]; intros t.
  - exists t. by destruct t.
  - destruct t as [|a t]; [by exists ""|].
    destruct (IH t) as (rest & Hrest & Hlen). exists rest.
    split; [exact (f_equal (String a) Hrest)|cbn; by rewrite Hlen].
Qed.

(** ** The status box *)

(** X6. In a pass that is not degraded the badge reads "Valid" exactly
    when the three reserved parameters are supplied and the validation
    service answered 2xx with a body whose [isActive] is truthy. *)
Theorem badge_valid_iff B O p s info :
  produced B O p s = Some info →
  parses B p →
  status_badge info = BadgeValid ↔
  Supplied p "campaign_id" ∧ Supplied p "redirect_url" ∧ Supplied p "api_key"
  ∧ ∃ data, fetched B O p s = [Responds true (inr data)]
            ∧ ToBoolean (member data "isActive") = true.
Proof.
  intros [Hidle ->]%produced_Some Hp.
  destruct (parses_pass_url B O p s Hp) as [final_url Hurl].
  unfold status_badge. rewrite (pass_error _ _ _ _ _ Hurl), error_messages_truthy.
  rewrite <- (pass_key_valid B O p s Hidle), !Supplied_truthy.
  destruct (truthy (p !! "redirect_url")), (truthy (p !! "api_key")),
    (truthy (p !! "campaign_id")), (ToBoolean (pass_key B O p s).2);
    cbn; intuition discriminate.
Qed.

(** X7. In a degraded pass the view has no key status line, no key
    information, no final URL box (so no copy and open buttons), and its
    payload table has empty cells only; the badge reads "Error" unless the
    message thrown is the empty string. *)
Theorem degraded_view B O p s r message info :
  p !! "redirect_url" = Some r → r ≠ "" → URL_new B r = inl message →
  produced B O p s = Some info →
  key_status info = None
  ∧ key_info_block B info = None
  ∧ (∀ copied, final_url_box info copied = None)
  ∧ (∀ k cell, (k, cell) ∈ payload_rows B info → cell = "")
  ∧ (status_badge info = BadgeError ↔ message ≠ "").
Proof.
  intros Hr Hne Hurl [_ ->]%produced_Some.
  destruct (pass_url_failed B O p s r message Hr Hne Hurl) as [_ Hpass].
  rewrite (pass_info_degraded _ _ _ _ _ Hpass).
  split; [done|]. split; [done|]. split; [done|]. split.
  - intros k cell ([k' v] & [= -> ->] & Hin%elem_of_map_to_list)%list_elem_of_fmap.
    by apply degraded_strings in Hin as ->.
  - unfold status_badge, degraded. cbn. by destruct message.
Qed.

(** X8. In a pass that is not degraded the key status line is rendered
    unless the service answered 2xx with a body, other than [null], that
    has no [isActive]. It reads "Valid & Active" exactly when the service
    answered 2xx with a body whose [isActive] is truthy. For a body of the
    declared shape the line is always rendered and follows [isActive];
    without an [api_key] it reads "Invalid or Inactive" although no key
    was checked. *)
Theorem key_status_line B O p s info :
  produced B O p s = Some info →
  parses B p →
  (key_status info = None ↔
     ∃ data, fetched B O p s = [Responds true (inr data)]
             ∧ nullish data = false ∧ member data "isActive" = JUndefined)
  ∧ (key_status info = Some ValidAndActive ↔
     ∃ data, fetched B O p s = [Responds true (inr data)]
             ∧ ToBoolean (member data "isActive") = true)
  ∧ (∀ data : ApiKeyInfo.t,
       fetched B O p s = [Responds true (inr (ApiKeyInfo.to_js data))] →
       key_status info
       = Some (if ApiKeyInfo.isActive data then ValidAndActive else InvalidOrInactive))
  ∧ (Missing p "api_key" →
     key_status info = Some InvalidOrInactive ∧ fetched B O p s = []).
Proof.
  intros [Hidle ->]%produced_Some Hp.
  destruct (parses_pass_url B O p s Hp) as [final_url Hurl].
  rewrite key_status_None, key_status_valid. unfold key_status.
  rewrite (pass_valid _ _ _ _ _ Hurl).
  change (read (Some (pass_key B O p s).2)) with (pass_key B O p s).2.
  split; [by apply pass_key_undefined|]. split; [by apply pass_key_valid|]. split.
  - intros data Hf. rewrite (pass_key_body B O p s _ Hidle Hf). cbn.
    by destruct (ApiKeyInfo.isActive data).
  - intros Ha%Missing_truthy. rewrite fetched_run, Hidle.
    unfold pass_key, pass_fetch. by rewrite Ha.
Qed.

(** X9. In a pass that is not degraded the table of the key information
    is rendered exactly when the service answered 2xx with a truthy body,
    whether the key is active or not. Its rendering succeeds exactly when
    the body's [id] can be put on the page (it is not an object and has
    none among its items) and its [token] is a string, and then shows the
    id, the status and the shortened token; this is so for every body of
    the declared shape. *)
Theorem key_info_block_iff B O p s info :
  produced B O p s = Some info →
  parses B p →
  (key_info_block B info ≠ None ↔
     ∃ data, fetched B O p s = [Responds true (inr data)] ∧ ToBoolean data = true)
  ∧ (∀ shown, key_info_block B info = Some (Some shown) ↔
       ∃ data id token,
         fetched B O p s = [Responds true (inr data)]
         ∧ ToBoolean data = true
         ∧ child_text B (member data "id") = Some id
         ∧ member data "token" = JStr token
         ∧ shown = (id, ToBoolean (member data "isActive"), token_display token))
  ∧ (∀ data : ApiKeyInfo.t,
       fetched B O p s = [Responds true (inr (ApiKeyInfo.to_js data))] →
       key_info_block B info
       = Some (Some (ApiKeyInfo.id data, ApiKeyInfo.isActive data,
                     token_display (ApiKeyInfo.token data)))).
Proof.
  intros [Hidle ->]%produced_Some Hp.
  destruct (parses_pass_url B O p s Hp) as [final_url Hurl].
  unfold key_info_block. rewrite (pass_key_info _ _ _ _ _ Hurl).
  change (read (Some (pass_key B O p s).1)) with (pass_key B O p s).1. cbn zeta.
  split; [|split].
  - rewrite <- (pass_key_info_truthy B O p s Hidle).
    destruct (ToBoolean (pass_key B O p s).1); split; intros; congruence.
  - intros shown. split.
    + destruct (ToBoolean (pass_key B O p s).1) eqn:Ht; [|done].
      apply (pass_key_info_truthy B O p s Hidle) in Ht as (data & Hf & Ht).
      rewrite (pass_key_body B O p s data Hidle Hf). cbn [fst].
      destruct (child_text B (member data "id")) as [id|] eqn:Hid; [|done].
      destruct (member data "token") as [| | | |token| |] eqn:Htoken; try done.
      intros [= <-]. by exists data, id, token.
    + intros (data & id & token & Hf & Ht & Hid & Htoken & ->).
      rewrite (pass_key_body B O p s data Hidle Hf). cbn [fst].
      by rewrite Ht, Hid, Htoken.
  - intros d Hf. by rewrite (pass_key_body B O p s _ Hidle Hf).
Qed.

(** X10. The token is never displayed beyond its twentieth character: the
    text shown is a prefix of the token of length [min 20 (length token)]
    followed by three dots, so a token of at most twenty characters is
    shown whole. *)
Theorem token_display_prefix token :
  ∃ shown rest,
    token_display token = shown ++ "..."
    ∧ token = shown ++ rest
    ∧ String.length shown = min 20 (String.length token).
Proof.
  destruct (substring_prefix 20 token) as (rest & Hrest & Hlen).
  by exists (substring 0 20 token), rest.
Qed.

(** ** The tables *)

(** X11. When the result panel is rendered the parameter table is never
    the placeholder "No query parameters": it has one row for each key of
    the parameter object, with the value, or the mark "empty" for the
    empty string. *)
Theorem param_table_rows p :
  truthy (hasParams p) = true →
  ∃ rows,
    param_table p = Rows rows
    ∧ rows ≠ []
    ∧ NoDup rows.*1
    ∧ ∀ k cell, (k, cell) ∈ rows ↔
        ∃ v, p !! k = Some v ∧ cell = if truthy (Some v) then Text v else EmptyMark.
Proof.
  intros Hh. unfold param_table.
  assert (map_to_list p ≠ []) as Hne.
  { rewrite map_to_list_empty_iff. intros ->. by rewrite hasParams_is_idle in Hh. }
  destruct (map_to_list p) as [|kv l] eqn:Hl; [done|].
  eexists. split; [done|]. split; [done|]. rewrite <- Hl. split.
  - rewrite <- list_fmap_compose. exact (NoDup_fst_map_to_list p).
  - intros k cell. rewrite list_elem_of_fmap. split.
    + intros ([k' v] & [= -> ->] & Hin%elem_of_map_to_list). by exists v.
    + intros (v & Hv & ->). exists (k, v). split; [done|].
      by apply elem_of_map_to_list.
Qed.

(** X12. The payload table has one row for each key of the payload, with
    the text that lines 381-385 choose for its value. A string is shown as
    it is, and every value is a string except, possibly, [api_key_id]:
    the branch for [null] is never taken, and the branch for objects only
    for an [api_key_id] that the validation service sent as an object or
    an array. *)
Theorem payload_rows_strings B O p s info k :
  produced B O p s = Some info →
  (∀ cell, (k, cell) ∈ payload_rows B info ↔
           ∃ v, payload info k = Some v ∧ cell = payload_cell B v)
  ∧ (∀ x, payload info k = Some (JStr x) → (k, x) ∈ payload_rows B info)
  ∧ payload info k ≠ Some JNull
  ∧ (∀ v, payload info k = Some v → ¬ is_string v →
       k = "api_key_id"
       ∧ ∃ data, fetched B O p s = [Responds true (inr data)]
                 ∧ v = member data "id" ∧ ToBoolean v = true).
Proof.
  intros [Hidle ->]%produced_Some.
  assert (∀ cell, (k, cell) ∈ payload_rows B (pass_info B O p s) ↔
            ∃ v, payload (pass_info B O p s) k = Some v ∧ cell = payload_cell B v)
    as Hrows.
  { intros cell. unfold payload_rows, payload. rewrite list_elem_of_fmap. split.
    - intros ([k' v] & [= <- ->] & Hin%elem_of_map_to_list). by exists v.
    - intros (v & Hv & ->). exists (k, v). split; [done|].
      by apply elem_of_map_to_list. }
  split; [exact Hrows|]. split; [|split].
  - intros x Hx. apply Hrows. by exists (JStr x).
  - intros [[x [=]]|(_ & data & _ & _ & [=])]%(pass_payload_values B O p s k _ Hidle).
  - intros v [Hs|Hid]%(pass_payload_values B O p s k _ Hidle) Hns; [done|exact Hid].
Qed.

(** X13. The final URL box, with its copy and open buttons, is rendered
    only when a [redirect_url] was supplied and parsed; its text is the
    final URL and the label of the copy button is the tick while the
    acknowledgement is on. *)
Theorem final_url_box_only_if_parsed B O p s info copied text label :
  produced B O p s = Some info →
  final_url_box info copied = Some (text, label) →
  (∃ r url0, p !! "redirect_url" = Some r ∧ r ≠ "" ∧ URL_new B r = inr url0)
  ∧ text = DebugInfo.final_url info
  ∧ label = (if copied then "✓" else "Copy").
Proof.
  intros [_ ->]%produced_Some. unfold final_url_box.
  destruct (truthy (Some (DebugInfo.final_url _))) eqn:Ht; [|done].
  intros [= <- <-]. split; [|done].
  destruct (pass_url B O p s) as [m|fu] eqn:Hurl.
  - by rewrite (pass_info_degraded _ _ _ _ _ Hurl) in Ht.
  - rewrite (pass_final_url _ _ _ _ _ Hurl) in Ht.
    unfold pass_url in Hurl.
    destruct (truthy (p !! "redirect_url")) eqn:Hr; [|by simplify_eq].
    apply truthy_true in Hr as (r & Hr & Hne). rewrite Hr in Hurl.
    exists r. destruct r as [|a r]; [done|]. cbn in Hurl.
    destruct (URL_new B (String a r)) as [m|url0] eqn:Hnew; [done|]. eauto.
Qed.

(** ** Lemmas on the effects and on the payload *)

Lemma pass_fetch_Some B O p s r :
  pass_fetch B O p s = Some r →
  ∃ key, p !! "api_key" = Some key ∧ key ≠ ""
         ∧ r = fetch_at O (S (length (log s))) (endpoint B) key.
Proof.
  unfold pass_fetch. destruct (truthy (p !! "api_key")) eqn:Ha; [|done].
  apply truthy_true in Ha as (key & Ha & Hne). rewrite Ha. intros [= <-].
  exists key. by destruct key.
Qed.

Lemma dom_assign {V} (o : gmap string V) (l : list (string * V)) :
  dom (assign o l) = dom o ∪ list_to_set l.*1.
Proof.
  revert o. induction l as [|[k v] l IH]; intros o.
  - cbn. by rewrite (right_id_L ∅ (∪)).
  - change (assign o ((k, v) :: l)) with (assign (<[k:=v]> o) l).
    rewrite IH, dom_insert_L. cbn.
    by rewrite (comm_L (∪) {[k]} (dom o)), (assoc_L (∪)).
Qed.

Lemma add_extras_frame (url : URL.t) (l : list (string * string)) :
  URL.origin_path
    (foldl (λ url kv, if truthy (Some kv.2) then URL.set kv.1 kv.2 url else url) url l)
  = URL.origin_path url
  ∧ URL.hash
      (foldl (λ url kv, if truthy (Some kv.2) then URL.set kv.1 kv.2 url else url) url l)
    = URL.hash url.
Proof.
  revert url. induction l as [|kv l IH]; intros url; [done|].
  cbn [foldl]. destruct (IH (if truthy (Some kv.2) then URL.set kv.1 kv.2 url else url))
    as [-> ->].
  by destruct (truthy (Some kv.2)).
Qed.

Lemma add_params_frame extras trace_id api_key url :
  URL.origin_path (add_params extras trace_id api_key url) = URL.origin_path url
  ∧ URL.hash (add_params extras trace_id api_key url) = URL.hash url.
Proof.
  unfold add_params.
  destruct (add_extras_frame url (map_to_list extras)) as [Ho Hh].
  by destruct (truthy api_key).
Qed.

Lemma add_params_untouched extras trace_id api_key url k :
  k ≠ "trace_id" →
  (k = "api_key" → truthy api_key = false) →
  (∀ v, extras !! k = Some v → v = "") →
  URL.named k (URL.searchParams (add_params extras trace_id api_key url))
  = URL.named k (URL.searchParams url).
Proof.
  intros Ht Ha He.
  assert (URL.named k (URL.searchParams
            (foldl (λ url kv, if truthy (Some kv.2) then URL.set kv.1 kv.2 url else url)
                   url (map_to_list extras)))
          = URL.named k (URL.searchParams url)) as Hfold.
  { apply add_extras_skip. intros v Hv%elem_of_map_to_list. by apply He. }
  unfold add_params. destruct (truthy api_key) eqn:Hk; cbn [URL.set URL.searchParams].
  - rewrite !named_set_pairs_ne; [done|done|]. intros ->. by specialize (Ha eq_refl).
  - by rewrite named_set_pairs_ne.
Qed.

(** ** The effects of a pass *)

(** X14. A pass that finds a reserved parameter writes the state cells
    three times: the spinner on first, then one [DebugInfo], then the
    spinner off; in between it only calls the service, draws the
    identifier and reads the clock. Whatever the state was before, it ends
    with that [DebugInfo] and the spinner off, also when the pass is
    degraded. *)
Theorem state_writes B O p s :
  Supplied p "campaign_id" ∨ Supplied p "redirect_url" ∨ Supplied p "api_key" →
  ∃ info effects,
    events B O p s
    = (ESetIsLoading true :: effects ++ [ESetDebugInfo info; ESetIsLoading false])%list
    ∧ (∀ e, e ∈ effects →
            match e with
            | EFetch _ _ _ | ERandomUUID _ | ENow _ => True
            | ESetIsLoading _ | ESetDebugInfo _ => False
            end)
    ∧ processDebugInfo B O p s
      = (inr tt, mkState (Some info) false (log s ++ events B O p s)).
Proof.
  intros Hidle%is_idle_false.
  rewrite processDebugInfo_run, events_run, Hidle. unfold pass_events.
  exists (pass_info B O p s).
  exists (from_option
            (λ r, [EFetch (endpoint B) (or_default (p !! "api_key") "") r]) []
            (pass_fetch B O p s)
          ++ [ERandomUUID (pass_trace_id O p s);
              ENow (now_at O (S (pass_tick p s)));
              ENow (now_at O (S (S (pass_tick p s))))])%list.
  split; [by rewrite <- app_assoc|]. split; [|done].
  intros e [He|He]%elem_of_app.
  - destruct (pass_fetch B O p s); [|by apply elem_of_nil in He].
    by apply list_elem_of_singleton in He as ->.
  - repeat (apply elem_of_cons in He as [->|He]; [done|]). by apply elem_of_nil in He.
Qed.

(** X15. The validation service is called at most once in a pass, and only
    when a non-empty [api_key] is supplied: the request then goes to the
    configured server, or to [http://localhost:8787] when none is
    configured, with that key in the header. *)
Theorem validation_call B O p s :
  (Missing p "api_key" → fetched B O p s = [])
  ∧ (∀ key, p !! "api_key" = Some key → key ≠ "" →
       ∃ r, fetched B O p s = [r]
            ∧ ∀ url header r', EFetch url header r' ∈ events B O p s →
                url = serverUrl B ++ "/v1/auth/api-key" ∧ header = key ∧ r' = r)
  ∧ (truthy (PUBLIC_SERVER_URL B) = false → serverUrl B = "http://localhost:8787").
Proof.
  split; [|split].
  - intros Ha%Missing_truthy. rewrite fetched_run. destruct (is_idle p); [done|].
    unfold pass_fetch. by rewrite Ha.
  - intros key Ha Hne.
    assert (truthy (p !! "api_key") = true) as Ht by (apply truthy_true; eauto).
    assert (is_idle p = false) as Hidle
      by (apply is_idle_false; right; right; by exists key).
    rewrite fetched_run, events_run, Hidle. unfold pass_events, pass_fetch.
    rewrite Ht. eexists. split; [done|]. cbn.
    intros url header r' Hin.
    repeat (apply elem_of_cons in Hin as [Hin|Hin]; [try done|]).
    + injection Hin as -> -> ->. rewrite Ha. by destruct key.
    + by apply elem_of_nil in Hin.
  - intros He. unfold serverUrl. by apply or_default_falsy.
Qed.


(** X17. A pass that ends degraded has already called the validation
    service (when an [api_key] is supplied) and drawn an identifier; the
    [DebugInfo] it produces carries neither the validity flag nor the
    identifier. *)
Theorem degraded_after_effects B O p s r message key :
  p !! "redirect_url" = Some r → r ≠ "" → URL_new B r = inl message →
  p !! "api_key" = Some key → key ≠ "" →
  ∃ info answer trace_id,
    produced B O p s = Some info
    ∧ fetched B O p s = [answer]
    ∧ generated B O p s = [trace_id]
    ∧ DebugInfo.api_key_valid info = None
    ∧ DebugInfo.api_key_info info = None
    ∧ payload info "id" = Some (JStr "").
Proof.
  intros Hr Hne Hurl Ha Hk.
  destruct (pass_url_failed B O p s r message Hr Hne Hurl) as [Hidle Hpass].
  assert (truthy (p !! "api_key") = true) as Ht by (apply truthy_true; eauto).
  exists (pass_info B O p s). rewrite fetched_run, generated_run, produced_run, Hidle.
  unfold pass_fetch. rewrite Ht. eexists _, _. do 3 (split; [done|]).
  by rewrite (pass_info_degraded _ _ _ _ _ Hpass).
Qed.

(** ** The final URL and the payload *)

(** X18. The final URL keeps what the [redirect_url] had: the part before
    the query, the fragment, and the pairs of every name that the pass
    does not set, that is every name other than [trace_id], other than a
    supplied [api_key] and other than the non-empty extra parameters. *)
Theorem redirect_url_kept B O p s r url0 :
  p !! "redirect_url" = Some r → r ≠ "" → URL_new B r = inr url0 →
  ∃ info trace_id,
    produced B O p s = Some info ∧ generated B O p s = [trace_id] ∧
    let url := add_params (extraParams p) trace_id (p !! "api_key") url0 in
    DebugInfo.final_url info = URL_toString B url
    ∧ URL.origin_path url = URL.origin_path url0
    ∧ URL.hash url = URL.hash url0
    ∧ ∀ k, k ≠ "trace_id" →
           (k = "api_key" → Missing p "api_key") →
           (∀ v, extraParams p !! k = Some v → v = "") →
           URL.named k (URL.searchParams url) = URL.named k (URL.searchParams url0).
Proof.
  intros Hr Hne Hurl0.
  assert (is_idle p = false) as Hidle
    by (apply is_idle_false; right; left; by exists r).
  assert (pass_url B O p s =
    inr (URL_toString B
           (add_params (extraParams p) (pass_trace_id O p s) (p !! "api_key") url0)))
    as Hurl.
  { unfold pass_url. rewrite Hr. destruct r; [done|]. cbn. by rewrite Hurl0. }
  exists (pass_info B O p s), (pass_trace_id O p s).
  rewrite produced_run, generated_run, Hidle. do 2 (split; [done|]).
  cbn zeta. split; [by rewrite (pass_final_url _ _ _ _ _ Hurl)|].
  destruct (add_params_frame (extraParams p) (pass_trace_id O p s) (p !! "api_key") url0)
    as [Ho Hh].
  do 2 (split; [done|]).
  intros k Ht Ha He. apply add_params_untouched; [done| |done].
  intros Hk. by apply Missing_truthy, Ha.
Qed.

(** X19. The payload of a pass that is not degraded has exactly these
    keys: the six fixed fields, the names of the extra parameters and the
    seven network attributes. In particular it has no field [api_key]. *)
Theorem payload_keys B O p s info :
  produced B O p s = Some info →
  parses B p →
  dom (DebugInfo.trace_payload info)
  = list_to_set ["id"; "created_at"; "campaign_id"; "api_key_id"; "redirect_url";
                 "final_url"]
    ∪ dom (extraParams p)
    ∪ list_to_set ["country"; "city"; "colo"; "timezone"; "asn"; "user-agent";
                   "accept-language"]
  ∧ payload info "api_key" = None.
Proof.
  intros [Hidle ->]%produced_Some Hp.
  destruct (parses_pass_url B O p s Hp) as [final_url Hurl].
  unfold payload. rewrite (pass_payload _ _ _ _ _ Hurl).
  assert (dom (make_trace_payload B (pass_trace_id O p s) (now_at O (S (pass_tick p s)))
                 (p !! "campaign_id") (p !! "redirect_url") (pass_key B O p s).1
                 final_url (extraParams p))
          = list_to_set ["id"; "created_at"; "campaign_id"; "api_key_id"; "redirect_url";
                         "final_url"]
            ∪ dom (extraParams p)
            ∪ list_to_set ["country"; "city"; "colo"; "timezone"; "asn"; "user-agent";
                           "accept-language"]) as Hdom.
  { unfold make_trace_payload, spread, TracePayload. cbn zeta.
    rewrite dom_assign, dom_union_L, dom_fmap_L, dom_assign, dom_empty_L.
    rewrite (left_id_L ∅ (∪)), (comm_L (∪) (dom (extraParams p))). reflexivity. }
  split; [exact Hdom|].
  rewrite make_trace_payload_fixed.
  - rewrite extraParams_lookup. case_decide; [done|tauto].
  - cbn. intros H. repeat (apply elem_of_cons in H as [?|H]; [done|]).
    by apply elem_of_nil in H.
Qed.

(** X20. The payload records [campaign_id] and [redirect_url] as they
    were supplied ([missing] when they were not): unlike the other fixed
    fields, no extra parameter can replace them, and the [redirect_url]
    recorded is the one given, not the final URL. *)
Theorem payload_reserved_values B O p s info :
  produced B O p s = Some info →
  parses B p →
  payload info "campaign_id" = Some (JStr (or_default (p !! "campaign_id") "missing"))
  ∧ payload info "redirect_url"
    = Some (JStr (or_default (p !! "redirect_url") "missing")).
Proof.
  intros [Hidle ->]%produced_Some Hp.
  destruct (parses_pass_url B O p s Hp) as [final_url Hurl].
  unfold payload. rewrite (pass_payload _ _ _ _ _ Hurl).
  split; (rewrite make_trace_payload_reserved; [done|tauto|]);
    rewrite extraParams_lookup; case_decide; tauto.
Qed.

(** ** The copy button *)

(** X21. In every state that clicks and timeouts lead to, the tick on the
    copy button has a timeout pending that clears it, every pending
    timeout is one of two seconds, and once the pending timeouts have run
    the tick is off and the clipboard is as it was. *)
Theorem copy_acknowledgement_transient c :
  copy_reachable c →
  (copied c = true → timers c ≠ [])
  ∧ Forall (λ delay, delay = 2000) (timers c)
  ∧ copied (Nat.iter (length (timers c)) timer_fires c) = false
  ∧ timers (Nat.iter (length (timers c)) timer_fires c) = []
  ∧ clipboard (Nat.iter (length (timers c)) timer_fires c) = clipboard c.
Proof.
  intros Hc.
  assert ((copied c = true → timers c ≠ []) ∧ Forall (λ delay, delay = 2000) (timers c))
    as [Hinv Hdelays].
  { induction Hc as [|text w c Hc [IH1 IH2]|c Hc [IH1 IH2] Hne].
    - split; [done|constructor].
    - destruct w; cbn; [done| |];
        (split; [by destruct (timers c)|apply Forall_app; split; [done|by repeat constructor]]).
    - unfold timer_fires. destruct (timers c) as [|d rest]; [done|]. cbn.
      split; [done|by inversion IH2]. }
  split; [done|]. split; [done|].
  clear Hc Hdelays. destruct c as [cp cb ts]. cbn in *.
  assert (∀ cp', (cp' = true → ts ≠ []) →
    let c' := Nat.iter (length ts) timer_fires (mkCopyState cp' cb ts) in
    copied c' = false ∧ timers c' = [] ∧ clipboard c' = cb) as Hrun.
  { clear Hinv. induction ts as [|d ts IH]; intros cp' Hc'.
    - cbn. by destruct cp'; [destruct Hc'|].
    - cbn [length]. rewrite Nat.iter_succ_r. apply (IH false). done. }
  apply (Hrun cp Hinv).
Qed.

(** X22. Every extra parameter whose name is not one of the seven network
    attributes is in the payload with its value, also when the value is
    the empty string (an empty extra parameter is not put on the URL, but
    it is recorded). *)
Theorem extras_recorded B O p s info k v :
  produced B O p s = Some info →
  parses B p →
  extraParams p !! k = Some v →
  k ∉ ["country"; "city"; "colo"; "timezone"; "asn"; "user-agent"; "accept-language"] →
  payload info k = Some (JStr v).
Proof.
  intros [Hidle ->]%produced_Some Hp Hk Hblock.
  destruct (parses_pass_url B O p s Hp) as [final_url Hurl].
  unfold payload. rewrite (pass_payload _ _ _ _ _ Hurl).
  rewrite make_trace_payload_fixed; [by rewrite Hk|exact Hblock].
Qed.

(** X23. A pass that finds a reserved parameter reads the clock exactly
    twice. The second reading is the timestamp of the [DebugInfo], also in
    a degraded pass; the first is the payload's [created_at] when the pass
    is not degraded and no extra parameter has that name. *)
Theorem clock_readings B O p s info :
  produced B O p s = Some info →
  ∃ first second,
    omap (λ e, match e with ENow t => Some t | _ => None end) (events B O p s)
    = [first; second]
    ∧ DebugInfo.timestamp info = second
    ∧ (parses B p → extraParams p !! "created_at" = None →
       payload info "created_at" = Some (JStr first)).
Proof.
  intros [Hidle ->]%produced_Some.
  exists (now_at O (S (pass_tick p s))), (now_at O (S (S (pass_tick p s)))).
  rewrite events_run, Hidle. split; [|split].
  - unfold pass_events. by destruct (pass_fetch B O p s).
  - unfold pass_info. destruct (pass_url B O p s); [done|].
    unfold set_error. by repeat destruct (negb _).
  - intros Hp He. destruct (parses_pass_url B O p s Hp) as [final_url Hurl].
    unfold payload. rewrite (pass_payload _ _ _ _ _ Hurl).
    rewrite make_trace_payload_fixed; [by rewrite He|].
    cbn. intros H. repeat (apply elem_of_cons in H as [?|H]; [done|]).
    by apply elem_of_nil in H.
Qed.

(** ** The properties on concrete inputs *)

Lemma parses_redirect_with_query : parses Reference.browser redirect_with_query.
Proof.
  intros r Hr _. vm_compute in Hr. injection Hr as <-. eexists. vm_compute. reflexivity.
Qed.

Lemma parses_scenario : parses Reference.browser Reference.scenario.
Proof. apply parses_example. vm_compute. reflexivity. Qed.

Lemma view_after_pass_witness :
  shown_debugInfo Reference.scenario
    (processDebugInfo Reference.browser (Reference.world Reference.active_key)
       Reference.scenario Reference.idle).2
  = produced Reference.browser (Reference.world Reference.active_key)
      Reference.scenario Reference.idle.
Proof.
  exact (proj1 (proj2 (view_after_pass Reference.browser
    (Reference.world Reference.active_key) Reference.scenario Reference.idle eq_refl))).
Defined.

Lemma badge_valid_iff_witness :
  status_badge (pass_info Reference.browser (Reference.world Reference.active_key)
                  Reference.scenario Reference.idle) = BadgeValid.
Proof.
  apply (badge_valid_iff Reference.browser (Reference.world Reference.active_key)
           Reference.scenario Reference.idle).
  - vm_compute. reflexivity.
  - apply parses_scenario.
  - repeat split; try (eexists; split; [vm_compute; reflexivity|discriminate]).
    eexists. split; [vm_compute; reflexivity|reflexivity].
Defined.

Lemma degraded_view_witness :
  key_status (pass_info Reference.browser (Reference.world Reference.unauthorized)
                Reference.unparseable Reference.idle) = None
  ∧ status_badge (pass_info Reference.browser (Reference.world Reference.unauthorized)
                    Reference.unparseable Reference.idle) = BadgeError.
Proof.
  destruct (degraded_view Reference.browser (Reference.world Reference.unauthorized)
              Reference.unparseable Reference.idle "not a url" "Invalid URL"
              (pass_info Reference.browser (Reference.world Reference.unauthorized)
                 Reference.unparseable Reference.idle))
    as (Hk & _ & _ & _ & Hb).
  - vm_compute. reflexivity.
  - discriminate.
  - vm_compute. reflexivity.
  - vm_compute. reflexivity.
  - split; [exact Hk|]. apply Hb. discriminate.
Defined.

Lemma key_status_line_witness :
  key_status (pass_info Reference.browser (Reference.world Reference.active_key)
                Reference.only_redirect_url Reference.idle) = Some InvalidOrInactive
  ∧ fetched Reference.browser (Reference.world Reference.active_key)
      Reference.only_redirect_url Reference.idle = [].
Proof.
  refine (proj2 (proj2 (proj2
    (key_status_line Reference.browser (Reference.world Reference.active_key)
       Reference.only_redirect_url Reference.idle _ _ _))) _).
  - vm_compute. reflexivity.
  - apply parses_example. vm_compute. reflexivity.
  - left. vm_compute. reflexivity.
Defined.

Lemma key_info_block_iff_witness :
  key_info_block Reference.browser
    (pass_info Reference.browser (Reference.world Reference.active_key)
       Reference.scenario Reference.idle)
  = Some (Some ("k1", true, "abcdefghijklmnopqrst...")).
Proof.
  apply (proj1 (proj2
    (key_info_block_iff Reference.browser (Reference.world Reference.active_key)
       Reference.scenario Reference.idle _
       ltac:(vm_compute; reflexivity) parses_scenario))).
  eexists _, "k1", "abcdefghijklmnopqrstuvwxyz".
  split; [vm_compute; reflexivity|]. repeat split.
Defined.

Lemma param_table_rows_witness :
  ∃ rows, param_table Reference.empty_campaign_id = Rows rows
          ∧ ("campaign_id", EmptyMark) ∈ rows.
Proof.
  destruct (param_table_rows Reference.empty_campaign_id) as (rows & Ht & _ & _ & Hrows).
  - vm_compute. reflexivity.
  - exists rows. split; [exact Ht|]. apply Hrows. exists "".
    split; [vm_compute; reflexivity|reflexivity].
Defined.

Lemma payload_rows_strings_witness :
  ("utm_source", "newsletter")
  ∈ payload_rows Reference.browser
      (pass_info Reference.browser (Reference.world Reference.active_key)
         Reference.scenario Reference.idle).
Proof.
  apply (proj1 (proj2
    (payload_rows_strings Reference.browser (Reference.world Reference.active_key)
       Reference.scenario Reference.idle _ "utm_source"
       ltac:(vm_compute; reflexivity)))).
  vm_compute. reflexivity.
Defined.

Lemma final_url_box_only_if_parsed_witness :
  ∃ r url0,
    Reference.scenario !! "redirect_url" = Some r ∧ r ≠ ""
    ∧ URL_new Reference.browser r = inr url0.
Proof.
  refine (proj1 (final_url_box_only_if_parsed Reference.browser
    (Reference.world Reference.active_key) Reference.scenario Reference.idle
    (pass_info Reference.browser (Reference.world Reference.active_key)
       Reference.scenario Reference.idle)
    false
    "https://example.com/x?utm_source=newsletter&trace_id=3b241101-e2bb-4255-8caf-4136c566a962&api_key=k1"
    "Copy" _ _)).
  - vm_compute. reflexivity.
  - vm_compute. reflexivity.
Defined.

Lemma state_writes_witness :
  ∃ info effects,
    events Reference.browser (Reference.world Reference.active_key)
      {[ "campaign_id" := "c1" ]} Reference.idle
    = (ESetIsLoading true :: effects ++ [ESetDebugInfo info; ESetIsLoading false])%list.
Proof.
  destruct (state_writes Reference.browser (Reference.world Reference.active_key)
              {[ "campaign_id" := "c1" ]} Reference.idle)
    as (info & effects & He & _).
  - left. exists "c1". split; [vm_compute; reflexivity|discriminate].
  - by exists info, effects.
Defined.


Lemma degraded_after_effects_witness :
  ∃ info answer trace_id,
    produced Reference.browser (Reference.world Reference.unauthorized)
      Reference.unparseable Reference.idle = Some info
    ∧ fetched Reference.browser (Reference.world Reference.unauthorized)
        Reference.unparseable Reference.idle = [answer]
    ∧ generated Reference.browser (Reference.world Reference.unauthorized)
        Reference.unparseable Reference.idle = [trace_id]
    ∧ DebugInfo.api_key_valid info = None.
Proof.
  destruct (degraded_after_effects Reference.browser
              (Reference.world Reference.unauthorized) Reference.unparseable
              Reference.idle "not a url" "Invalid URL" "k1")
    as (info & answer & trace_id & Hp & Hf & Hg & Hv & _).
  - vm_compute. reflexivity.
  - discriminate.
  - vm_compute. reflexivity.
  - vm_compute. reflexivity.
  - discriminate.
  - by exists info, answer, trace_id.
Defined.

Lemma redirect_url_kept_witness :
  ∃ info url,
    produced Reference.browser (Reference.world Reference.active_key)
      redirect_with_query Reference.idle = Some info
    ∧ DebugInfo.final_url info = URL_toString Reference.browser url
    ∧ URL.origin_path url = "https://example.com/x"
    ∧ URL.hash url = "#top"
    ∧ URL.named "keep" (URL.searchParams url) = [("keep", "1")].
Proof.
  destruct (redirect_url_kept Reference.browser (Reference.world Reference.active_key)
              redirect_with_query Reference.idle "https://example.com/x?keep=1#top"
              (URL.mk "https://example.com/x" [("keep", "1")] "#top"))
    as (info & trace_id & Hp & _ & Hfu & Ho & Hh & Hk).
  - vm_compute. reflexivity.
  - discriminate.
  - vm_compute. reflexivity.
  - exists info. eexists. split; [exact Hp|]. split; [exact Hfu|].
    split; [exact Ho|]. split; [exact Hh|].
    apply (Hk "keep"); [discriminate|discriminate|].
    intros v Hv. vm_compute in Hv. discriminate.
Defined.

Lemma payload_keys_witness :
  payload (pass_info Reference.browser (Reference.world Reference.active_key)
             Reference.scenario Reference.idle) "api_key" = None.
Proof.
  refine (proj2 (payload_keys Reference.browser (Reference.world Reference.active_key)
    Reference.scenario Reference.idle _ _ _)).
  - vm_compute. reflexivity.
  - apply parses_scenario.
Defined.

Lemma payload_reserved_values_witness :
  payload (pass_info Reference.browser (Reference.world Reference.active_key)
             Reference.only_redirect_url Reference.idle) "campaign_id"
  = Some (JStr (or_default (Reference.only_redirect_url !! "campaign_id") "missing")).
Proof.
  refine (proj1 (payload_reserved_values Reference.browser
    (Reference.world Reference.active_key) Reference.only_redirect_url Reference.idle
    _ _ _)).
  - vm_compute. reflexivity.
  - apply parses_example. vm_compute. reflexivity.
Defined.

Lemma copy_acknowledgement_transient_witness :
  copied (Nat.iter 1 timer_fires
            (copyToClipboard "https://example.com/x" WriteRejected
               (mkCopyState false None [])).2) = false.
Proof.
  refine (proj1 (proj2 (proj2 (copy_acknowledgement_transient
    (copyToClipboard "https://example.com/x" WriteRejected
       (mkCopyState false None [])).2 _)))).
  apply reach_click, reach_initial.
Defined.

Lemma extras_recorded_witness :
  payload (pass_info Reference.browser (Reference.world Reference.active_key)
             redirect_with_query Reference.idle) "utm_term" = Some (JStr "").
Proof.
  apply (extras_recorded Reference.browser (Reference.world Reference.active_key)
           redirect_with_query Reference.idle).
  - vm_compute. reflexivity.
  - apply parses_redirect_with_query.
  - vm_compute. reflexivity.
  - intros H. repeat (apply elem_of_cons in H as [?|H]; [done|]).
    by apply elem_of_nil in H.
Defined.

Lemma clock_readings_witness :
  ∃ first second,
    omap (λ e, match e with ENow t => Some t | _ => None end)
      (events Reference.browser (Reference.world Reference.active_key)
         Reference.scenario Reference.idle)
    = [first; second]
    ∧ DebugInfo.timestamp
        (pass_info Reference.browser (Reference.world Reference.active_key)
           Reference.scenario Reference.idle) = second.
Proof.
  destruct (clock_readings Reference.browser (Reference.world Reference.active_key)
              Reference.scenario Reference.idle
              (pass_info Reference.browser (Reference.world Reference.active_key)
                 Reference.scenario Reference.idle))
    as (first & second & He & Ht & _).
  - vm_compute. reflexivity.
  - by exists first, second.
Defined.
